(** * Universal scraper / crawler: provider tracking, fallback, normalisation

    A shallow embedding of [scraper.ts] and [crawler.ts].  The two files carry
    the same provider-state code and the same fallback orchestrator; they are
    embedded once and instantiated for both entry points.

    Conventions of the embedding:
    - a JS [Date] is the number of milliseconds it denotes ([Z]); the clock
      that [new Date()] and [Date.now()] read is an explicit argument;
    - an optional field is an [option]; [undefined] is [None];
    - a JS number is an integer ([Z]);
    - a JS string is a [string], its [length] is [String.length];
    - a thrown error is the left summand of a sum type;
    - the DOM libraries, the URL class and the network are parameters
      ([DomLibs], [Remote]);
    - the provider state is threaded explicitly; one call of an entry point
      runs from start to end, and what other requests in flight do to the
      shared state in between is a trace of tracker operations ([runOps]). *)

From Stdlib Require Import ZArith Lia Ascii String.
From stdpp Require Import base option list strings gmap.

Local Open Scope Z_scope.

(** ** Types *)

Inductive ScrapingProvider := exa | firecrawl | cheerio.

#[global] Instance ScrapingProvider_eq_dec : EqDecision ScrapingProvider.
Proof. solve_decision. Defined.

Record RateLimitState := mkRateLimitState {
  isLimited : bool;
  resetAt : option Z;
  errors : nat
}.

Record ProviderState := mkProviderState {
  available : bool;
  rateLimit : RateLimitState;
  lastSuccess : option Z
}.

(** [Record<ScrapingProvider, ProviderState>]: one slot per provider. *)
Record TrackerState := mkTrackerState {
  st_exa : ProviderState;
  st_firecrawl : ProviderState;
  st_cheerio : ProviderState
}.

(** [state[provider]] *)
Definition get (p : ScrapingProvider) (st : TrackerState) : ProviderState :=
  match p with
  | exa => st_exa st
  | firecrawl => st_firecrawl st
  | cheerio => st_cheerio st
  end.

(** [state[provider] = v] *)
Definition set (p : ScrapingProvider) (v : ProviderState) (st : TrackerState)
  : TrackerState :=
  match p with
  | exa => mkTrackerState v (st_firecrawl st) (st_cheerio st)
  | firecrawl => mkTrackerState (st_exa st) v (st_cheerio st)
  | cheerio => mkTrackerState (st_exa st) (st_firecrawl st) v
  end.

(** ** Rate limit state management *)

Definition RATE_LIMIT_COOLDOWN_MS : Z := 60 * 1000.

Definition createInitialState : ProviderState :=
  mkProviderState false (mkRateLimitState false None 0) None.

Definition createRateLimitState : TrackerState :=
  mkTrackerState createInitialState createInitialState createInitialState.

Definition setAvailable (p : ScrapingProvider) (a : bool) (st : TrackerState)
  : TrackerState :=
  let s := get p st in
  set p (mkProviderState a (rateLimit s) (lastSuccess s)) st.

Definition recordSuccess (now : Z) (p : ScrapingProvider) (st : TrackerState)
  : TrackerState :=
  let s := get p st in
  set p (mkProviderState (available s)
           (mkRateLimitState false (resetAt (rateLimit s)) 0)
           (Some now)) st.

Definition recordRateLimit (now : Z) (p : ScrapingProvider) (st : TrackerState)
  : TrackerState :=
  let s := get p st in
  set p (mkProviderState (available s)
           (mkRateLimitState true
              (Some (now + RATE_LIMIT_COOLDOWN_MS))
              (S (errors (rateLimit s))))
           (lastSuccess s)) st.

Definition recordError (p : ScrapingProvider) (st : TrackerState)
  : TrackerState :=
  let s := get p st in
  set p (mkProviderState (available s)
           (mkRateLimitState (isLimited (rateLimit s))
              (resetAt (rateLimit s))
              (S (errors (rateLimit s))))
           (lastSuccess s)) st.

(** The lazy reset of [isRateLimited]: the flag and [resetAt] are cleared,
    the error count stays. *)
Definition clearLimit (p : ScrapingProvider) (st : TrackerState) : TrackerState :=
  let s := get p st in
  set p (mkProviderState (available s)
           (mkRateLimitState false None (errors (rateLimit s)))
           (lastSuccess s)) st.

(** [isRateLimited]: the answer and the state it leaves behind. *)
Definition isRateLimited (now : Z) (p : ScrapingProvider) (st : TrackerState)
  : bool * TrackerState :=
  let rl := rateLimit (get p st) in
  if negb (isLimited rl) then (false, st)
  else match resetAt rl with
       | Some r => if r <=? now then (false, clearLimit p st) else (true, st)
       | None => (true, st)
       end.

(** ** Adapter availability

    [adapter.available()] reads the process environment; the cheerio adapter
    needs no key. *)

Record Env := mkEnv {
  EXA_API_KEY : option string;
  FIRECRAWL_API_KEY : option string;
  FC_API_KEY : option string
}.

(** JS truthiness of an environment variable: set and not empty. *)
Definition truthy_str (o : option string) : bool :=
  match o with
  | Some s => negb (String.eqb s EmptyString)
  | None => false
  end.

Definition adapter_available (env : Env) (p : ScrapingProvider) : bool :=
  match p with
  | exa => truthy_str (EXA_API_KEY env)
  | firecrawl => truthy_str (FIRECRAWL_API_KEY env) || truthy_str (FC_API_KEY env)
  | cheerio => true
  end.

(** [adapter.available() && !isRateLimited(p)]; the right operand, and its
    write to the state, is evaluated only when the left one holds. *)
Definition usable (env : Env) (now : Z) (p : ScrapingProvider) (st : TrackerState)
  : bool * TrackerState :=
  if adapter_available env p
  then let '(l, st') := isRateLimited now p st in (negb l, st')
  else (false, st).

(** [Array.prototype.filter] with a predicate that writes to the state. *)
Fixpoint filter_usable (env : Env) (now : Z) (ps : list ScrapingProvider)
  (st : TrackerState) : list ScrapingProvider * TrackerState :=
  match ps with
  | [] => ([], st)
  | p :: ps' =>
      let '(b, st1) := usable env now p st in
      let '(r, st2) := filter_usable env now ps' st1 in
      (if b then p :: r else r, st2)
  end.

Definition getAvailableProvidersInternal (env : Env) (now : Z) (st : TrackerState)
  : list ScrapingProvider * TrackerState :=
  filter_usable env now [exa; firecrawl; cheerio] st.

Definition getAvailableProviders := getAvailableProvidersInternal.

(** ** Options, errors and results *)

Inductive Livecrawl := lc_never | lc_fallback | lc_always | lc_preferred.

Record ScrapeOptions := mkScrapeOptions {
  opt_provider : option ScrapingProvider;
  opt_fallback : option bool;
  opt_markdown : option bool;
  opt_html : option bool;
  opt_maxChars : option Z;
  opt_livecrawl : option Livecrawl;
  opt_maxAge : option Z
}.

(** [CrawlOptions extends ScrapeOptions]. *)
Record CrawlOptions := mkCrawlOptions {
  opt_base : ScrapeOptions;
  opt_maxSubpages : option Z;
  opt_maxDepth : option Z;
  (** a keyword or a list of keywords *)
  opt_subpageTarget : option (string + list string);
  opt_concurrency : option Z;
  opt_sameDomainOnly : option bool
}.

(** A thrown [Error]: its message, the [isRateLimit] flag the adapters attach
    (absent on a plain error, read as [false] by [?.isRateLimit || false]),
    and whether it is a [TypeError]. *)
Record JsError := mkJsError {
  message : string;
  isRateLimit : bool;
  isTypeError : bool
}.

Definition plainError (msg : string) : JsError := mkJsError msg false false.

Inductive JsVal :=
| JUndefined
| JStr (s : string)
| JNum (n : Z).

(** [ScrapeResult] and [CrawlResult]; a scrape result is a crawl result
    without the [subpages] and [depth] keys.  [metadata] is the object
    literal as a list of entries in source order (a later entry for the same
    key is the one a spread leaves). *)
#[local] Unset Elimination Schemes.
Inductive CrawlResult := mkCrawlResult {
  url : string;
  text : string;
  markdown : option string;
  html : option string;
  metadata : list (string * JsVal);
  provider : ScrapingProvider;
  subpages : option (list CrawlResult);
  depth : option Z
}.
#[local] Set Elimination Schemes.

Definition ScrapeResult := CrawlResult.

(** ** Provider selection *)

(** [x !== false] on an optional boolean. *)
Definition not_false (o : option bool) : bool :=
  match o with Some false => false | _ => true end.

(** JS truthiness of an optional boolean / number. *)
Definition truthy_bool (o : option bool) : bool :=
  match o with Some true => true | _ => false end.

Definition truthy_num (o : option Z) : bool :=
  match o with Some n => negb (n =? 0) | None => false end.

Definition includes (ps : list ScrapingProvider) (p : ScrapingProvider) : bool :=
  bool_decide (p ∈ ps).

(** The comparator of the sort in [selectProvider]: negative, zero, positive. *)
Definition compareProviders (st : TrackerState) (a b : ScrapingProvider) : Z :=
  let sa := get a st in
  let sb := get b st in
  if bool_decide (is_Some (lastSuccess sa)) && negb (bool_decide (is_Some (lastSuccess sb)))
  then -1
  else if negb (bool_decide (is_Some (lastSuccess sa))) && bool_decide (is_Some (lastSuccess sb))
  then 1
  else if (errors (rateLimit sa) <? errors (rateLimit sb))%nat then -1
  else if (errors (rateLimit sb) <? errors (rateLimit sa))%nat then 1
  else 0.

(** A stable sort by a comparator, as [Array.prototype.sort] is. *)
Fixpoint insertBy (cmp : ScrapingProvider -> ScrapingProvider -> Z)
  (x : ScrapingProvider) (l : list ScrapingProvider) : list ScrapingProvider :=
  match l with
  | [] => [x]
  | y :: l' => if 0 <? cmp x y then y :: insertBy cmp x l' else x :: l
  end.

Definition sortBy (cmp : ScrapingProvider -> ScrapingProvider -> Z)
  (l : list ScrapingProvider) : list ScrapingProvider :=
  foldr (insertBy cmp) [] l.

Definition priorityOrder : list ScrapingProvider := [cheerio; exa; firecrawl].

(** The tail of [selectProvider]: the priority loop, then the sort. *)
Definition selectByPriority (st : TrackerState) (avail : list ScrapingProvider)
  : option ScrapingProvider :=
  match List.find (includes avail) priorityOrder with
  | Some q => Some q
  | None => head (sortBy (compareProviders st) avail)
  end.

(** [selectProvider(prefer, fallback, options)]; of [options] only
    [options?.html] is read, passed here as [html_wanted]. *)
Definition selectProvider (env : Env) (now : Z)
  (prefer : option ScrapingProvider) (fallback : bool) (html_wanted : bool)
  (st : TrackerState) : option ScrapingProvider * TrackerState :=
  let '(avail, st') := getAvailableProvidersInternal env now st in
  let choice :=
    if bool_decide (avail = []) then None
    else if html_wanted && negb (bool_decide (is_Some prefer)) && includes avail firecrawl
    then Some firecrawl
    else match prefer with
         | Some p =>
             if includes avail p then Some p
             else if negb fallback then None
             else selectByPriority st' avail
         | None => selectByPriority st' avail
         end
  in (choice, st').

(** ** Fallback orchestrator

    [tryWithFallback] and the entry point around it are the same in both
    files up to the adapter method they call ([scrape] or [crawl]), the option
    type and the default options.  [call p url o t] is that adapter method
    started when the clock reads [t]: it gives the outcome and the clock when
    the promise settles.  [calls] records, in order, which adapters were
    invoked. *)

Record World := mkWorld {
  tracker : TrackerState;
  clock : Z;
  calls : list ScrapingProvider
}.

Definition with_tracker (st : TrackerState) (w : World) : World :=
  mkWorld st (clock w) (calls w).

Definition noProvidersError (what : string) : JsError :=
  plainError ("No " +:+ what +:+
    " providers available. Set EXA_API_KEY or FIRECRAWL_API_KEY, or use cheerio provider").

Definition providerName (p : ScrapingProvider) : string :=
  match p with
  | exa => "exa"
  | firecrawl => "firecrawl"
  | cheerio => "cheerio"
  end.

Definition dquote : string := String (Ascii.ascii_of_nat 34) EmptyString.

(** [`Provider "${opts.provider}" not available and fallback disabled`] *)
Definition providerUnavailableError (p : option ScrapingProvider) : JsError :=
  plainError ("Provider " +:+ dquote +:+
    match p with Some q => providerName q | None => "undefined" end
    +:+ dquote +:+ " not available and fallback disabled").

Definition alternatives (p : ScrapingProvider) : list ScrapingProvider :=
  match p with
  | exa => [firecrawl; cheerio]
  | firecrawl => [exa; cheerio]
  | cheerio => [exa; firecrawl]
  end.

Section Orchestrator.
Context {O R : Type}.
Variable what : string.
Variable base_of : O -> ScrapeOptions.
Variable with_defaults : O -> O.
Variable env : Env.
Variable call : ScrapingProvider -> string -> O -> Z -> (JsError + R) * Z.

(** [await adapter.scrape(url, options)] *)
Definition invoke (p : ScrapingProvider) (u : string) (o : O) (w : World)
  : (JsError + R) * World :=
  let '(out, t') := call p u o (clock w) in
  (out, mkWorld (tracker w) t' (calls w ++ [p])).

(** The loop over the alternatives; [None] when it runs to its end. *)
Fixpoint tryAlternatives (alts : list ScrapingProvider) (u : string) (o : O)
  (w : World) : option R * World :=
  match alts with
  | [] => (None, w)
  | alt :: rest =>
      let '(ok, st1) := usable env (clock w) alt (tracker w) in
      let w1 := with_tracker st1 w in
      if ok then
        let '(out, w2) := invoke alt u o w1 in
        match out with
        | inr r => (Some r, with_tracker (recordSuccess (clock w2) alt (tracker w2)) w2)
        | inl fallbackError =>
            let st3 := if isRateLimit fallbackError
                       then recordRateLimit (clock w2) alt (tracker w2)
                       else recordError alt (tracker w2) in
            tryAlternatives rest u o (with_tracker st3 w2)
        end
      else tryAlternatives rest u o w1
  end.

Definition tryWithFallback (u : string) (o : O) (p : ScrapingProvider)
  (w : World) : (JsError + R) * World :=
  let '(out, w1) := invoke p u o w in
  match out with
  | inr r => (inr r, with_tracker (recordSuccess (clock w1) p (tracker w1)) w1)
  | inl error =>
      if isRateLimit error then
        let w2 := with_tracker (recordRateLimit (clock w1) p (tracker w1)) w1 in
        if not_false (opt_fallback (base_of o)) then
          match tryAlternatives (alternatives p) u o w2 with
          | (Some r, w3) => (inr r, w3)
          | (None, w3) => (inl error, w3)
          end
        else (inl error, w2)
      else (inl error, with_tracker (recordError p (tracker w1)) w1)
  end.

(** [scrape] in scraper.ts, [crawl] in crawler.ts. *)
Definition entry (u : string) (options : O) (w : World) : (JsError + R) * World :=
  let opts := with_defaults options in
  let b := base_of opts in
  let '(sel, st1) :=
    selectProvider env (clock w) (opt_provider b) (not_false (opt_fallback b))
      (truthy_bool (opt_html b)) (tracker w) in
  let w1 := with_tracker st1 w in
  match sel with
  | Some p => tryWithFallback u opts p w1
  | None =>
      let exaAvail := adapter_available env exa in
      let fcAvail := adapter_available env firecrawl in
      let cheerioAvail := adapter_available env cheerio in
      if negb exaAvail && negb fcAvail && negb cheerioAvail
      then (inl (noProvidersError what), w1)
      else if not_false (opt_fallback b) then
        let tryProvider :=
          match opt_provider b with
          | Some q => q
          | None => if cheerioAvail then cheerio
                    else if exaAvail then exa else firecrawl
          end in
        tryWithFallback u opts tryProvider w1
      else (inl (providerUnavailableError (opt_provider b)), w1)
  end.
End Orchestrator.

(** ** String helpers (the [String.prototype] methods the code uses) *)

(** [s.includes(sub)] *)
Definition str_includes (s sub : string) : bool :=
  bool_decide (is_Some (String.index 0 sub s)).

(** [s.startsWith(pre)] *)
Definition startsWith (s pre : string) : bool := String.prefix pre s.

(** [s.substring(0, n)]; a negative [n] is taken as [0]. *)
Definition substring0 (n : Z) (s : string) : string :=
  String.substring 0 (Z.to_nat n) s.

(** [s.length] *)
Definition str_length (s : string) : Z := Z.of_nat (String.length s).

Definition lower_ascii (c : Ascii.ascii) : Ascii.ascii :=
  let n := Ascii.nat_of_ascii c in
  if ((65 <=? n) && (n <=? 90))%nat then Ascii.ascii_of_nat (n + 32) else c.

Fixpoint lower (s : string) : string :=
  match s with
  | EmptyString => EmptyString
  | String c s' => String (lower_ascii c) (lower s')
  end.

(** [/a|b|.../i.test(msg)] for literal alternatives given in lower case. *)
Definition test_any_ci (alts : list string) (msg : string) : bool :=
  existsb (str_includes (lower msg)) alts.

(** [a || b] on optional strings: [undefined] and the empty string are falsy. *)
Definition or_str (a : option string) (b : string) : string :=
  match a with
  | Some s => if String.eqb s EmptyString then b else s
  | None => b
  end.


Definition or_opt (a b : option string) : option string :=
  match a with
  | Some s => if String.eqb s EmptyString then b else Some s
  | None => b
  end.

Definition opt_val (o : option string) : JsVal :=
  match o with Some s => JStr s | None => JUndefined end.

(** [arr.slice(0, n)] for an integer [n]; a negative [n] counts from the end. *)
Definition slice0 {A} (n : Z) (l : list A) : list A :=
  if n <? 0 then take (Z.to_nat (Z.of_nat (length l) + n)) l
  else take (Z.to_nat n) l.

(** [text.length > maxChars ? text.substring(0, maxChars) : text], guarded by
    the truthiness of [options.maxChars]. *)
Definition truncate (maxChars : option Z) (s : string) : string :=
  match maxChars with
  | Some n => if negb (n =? 0) && (n <? str_length s) then substring0 n s else s
  | None => s
  end.

(** ** External collaborators

    The DOM and conversion libraries ([JSDOM], [Readability], [DOMPurify],
    [turndown], [cheerio], the WHATWG [URL] class) are taken as given
    functions. *)

Record Article := mkArticle {
  art_title : option string;
  art_byline : option string;
  art_content : option string;
  art_textContent : option string;
  art_lang : option string;
  art_excerpt : option string;
  art_siteName : option string
}.

Record URL := mkURL {
  href : string;
  hostname : string
}.

Class DomLibs := {
  (** [new Readability(new JSDOM(html, {url}).window.document).parse()] *)
  readability : string -> string -> option Article;
  (** [DOMPurify.sanitize(html, {ALLOWED_TAGS, ALLOWED_ATTR, ...})] *)
  sanitize : string -> string;
  (** [turndownService.turndown(html)] *)
  turndown : string -> string;
  (** [new JSDOM(html).window.document.body.textContent] *)
  bodyTextContent : string -> option string;
  (** [document.documentElement.lang] of [new JSDOM(html, {url})] *)
  documentLang : string -> string -> string;
  (** [$(selector).text()] *)
  selText : string -> string -> string;
  (** [$(selector).attr(name)] *)
  selAttr : string -> string -> string -> option string;
  (** the [href] attribute of each element of [$("a[href]")], in document order *)
  anchorHrefs : string -> list (option string);
  (** [new URL(input, base)]; [None] when the constructor throws *)
  parseURL : string -> option string -> option URL
}.

(** ** Remote services

    Each endpoint is a function of the request and of the clock value at which
    the adapter was invoked; [settle] is the clock when that adapter call
    settles. *)

Record ExaTextOptions := mkExaTextOptions {
  maxCharacters : option Z;
  includeHtmlTags : bool
}.

Record ExaOptions := mkExaOptions {
  xo_livecrawl : Livecrawl;
  (** absent, [true] ([inl tt]) or an object *)
  xo_text : option (unit + ExaTextOptions);
  xo_subpages : option Z;
  xo_subpageTarget : option string
}.

#[local] Unset Elimination Schemes.
Inductive ExaResult := mkExaResult {
  exa_url : option string;
  exa_text : option string;
  exa_html : option string;
  exa_title : option string;
  exa_summary : option string;
  exa_author : option string;
  exa_publishedDate : option string;
  exa_image : option string;
  exa_favicon : option string;
  exa_subpages : option (list ExaResult);
  exa_rest : list (string * JsVal)
}.
#[local] Set Elimination Schemes.

Record ExaResponse := mkExaResponse {
  exa_results : option (list ExaResult)
}.

Record FirecrawlMetadata := mkFirecrawlMetadata {
  fm_sourceURL : option string;
  fm_title : option string;
  fm_description : option string;
  fm_language : option string;
  fm_keywords : option string;
  fm_ogImage : option string;
  fm_statusCode : option Z;
  fm_rest : list (string * JsVal)
}.

Record FirecrawlResult := mkFirecrawlResult {
  fc_markdown : option string;
  fc_html : option string;
  fc_metadata : option FirecrawlMetadata;
  fc_links : option (list string)
}.

Record FirecrawlResponse := mkFirecrawlResponse {
  fr_data : option FirecrawlResult;
  fr_markdown : option string;
  fr_html : option string;
  fr_metadata : option FirecrawlMetadata;
  fr_links : option (list string)
}.

Record FirecrawlOptions := mkFirecrawlOptions {
  fo_formats : list string;
  fo_maxAge : option Z;
  fo_storeInCache : option bool
}.

Record HttpResponse := mkHttpResponse {
  resp_ok : bool;
  resp_status : string;
  resp_text : string
}.

Class Remote := {
  (** whether [new Exa(apiKey)] / [new Firecrawl({apiKey})] returns a client *)
  exaClient : string -> bool;
  firecrawlClient : string -> bool;
  (** [client.getContents(urls, exaOptions)] *)
  getContents : Z -> list string -> ExaOptions -> JsError + ExaResponse;
  (** [client.scrape(url, firecrawlOptions)] *)
  firecrawlScrape : Z -> string -> FirecrawlOptions -> JsError + FirecrawlResponse;
  (** [fetch(url, {headers})] *)
  fetch : Z -> string -> JsError + HttpResponse;
  settle : ScrapingProvider -> string -> Z -> Z
}.

(** ** Adapters *)

Section Adapters.
Context `{DomLibs} `{Remote}.
Variable env : Env.

Definition rateLimitWrap (prefix : string) (e : JsError) : JsError :=
  mkJsError (prefix +:+ message e) true false.

(** *** Exa *)

Definition createExaClient : bool :=
  match EXA_API_KEY env with
  | Some k => negb (String.eqb k EmptyString) && exaClient k
  | None => false
  end.

Definition isExaRateLimitError (e : JsError) : bool :=
  test_any_ci ["rate limit"; "429"; "quota"; "limit"] (message e).

Definition exaMetadata (result : ExaResult) (u : string) : list (string * JsVal) :=
  [("title", opt_val (exa_title result));
   ("description", opt_val (exa_summary result));
   ("author", opt_val (exa_author result));
   ("publishedDate", opt_val (exa_publishedDate result));
   ("image", opt_val (exa_image result));
   ("favicon", opt_val (exa_favicon result));
   ("sourceURL", JStr (or_str (exa_url result) u))]
  ++ exa_rest result.

(** scraper.ts *)
Definition normalizeExaResult (result : ExaResult) (u : string)
  (options : ScrapeOptions) : ScrapeResult :=
  {| url := or_str (exa_url result) u;
     text := or_str (exa_text result) EmptyString;
     markdown := exa_text result;
     html := or_opt (exa_html result)
               (if truthy_bool (opt_html options) then exa_text result else None);
     metadata := exaMetadata result u;
     provider := exa;
     subpages := None;
     depth := None |}.

Definition exaTextOption (options : ScrapeOptions) : option (unit + ExaTextOptions) :=
  if not_false (opt_markdown options) then
    if truthy_num (opt_maxChars options) || bool_decide (is_Some (opt_html options))
    then Some (inr (mkExaTextOptions (opt_maxChars options)
                      (truthy_bool (opt_html options))))
    else Some (inl tt)
  else None.

Definition livecrawl_or_fallback (options : ScrapeOptions) : Livecrawl :=
  match opt_livecrawl options with Some l => l | None => lc_fallback end.

(** scraper.ts *)
Definition buildExaOptions (options : ScrapeOptions) : ExaOptions :=
  mkExaOptions (livecrawl_or_fallback options) (exaTextOption options) None None.

Definition exaCatch {A} (r : JsError + A) : JsError + A :=
  match r with
  | inl error =>
      if isExaRateLimitError error
      then inl (rateLimitWrap "Exa rate limit: " error)
      else inl error
  | inr a => inr a
  end.

(** [exaAdapter.scrape] *)
Definition exa_scrape (t : Z) (u : string) (options : ScrapeOptions)
  : JsError + ScrapeResult :=
  if negb createExaClient
  then inl (plainError "Exa not available: EXA_API_KEY not set")
  else exaCatch
    match getContents t [u] (buildExaOptions options) with
    | inl e => inl e
    | inr response =>
        match exa_results response with
        | Some (r0 :: _) => inr (normalizeExaResult r0 u options)
        | _ => inl (plainError ("No results from Exa for: " +:+ u))
        end
    end.

(** *** Firecrawl *)

Definition createFirecrawlClient : bool :=
  match or_opt (FIRECRAWL_API_KEY env) (FC_API_KEY env) with
  | Some k => negb (String.eqb k EmptyString) && firecrawlClient k
  | None => false
  end.

Definition isFirecrawlRateLimitError (e : JsError) : bool :=
  test_any_ci ["rate limit"; "429"; "quota"; "limit"; "ratelimiterror"] (message e).

Definition fm_get {A} (f : FirecrawlMetadata -> option A)
  (m : option FirecrawlMetadata) : option A := m ≫= f.

Definition firecrawlMetadata (data : FirecrawlResult) (u : string)
  : list (string * JsVal) :=
  let m := fc_metadata data in
  [("title", opt_val (fm_get fm_title m));
   ("description", opt_val (fm_get fm_description m));
   ("language", opt_val (fm_get fm_language m));
   ("keywords", opt_val (fm_get fm_keywords m));
   ("image", opt_val (fm_get fm_ogImage m));
   ("statusCode", match fm_get fm_statusCode m with
                  | Some n => JNum n | None => JUndefined end);
   ("sourceURL", JStr (or_str (fm_get fm_sourceURL m) u))]
  ++ match m with Some md => fm_rest md | None => [] end.

Definition firecrawlNormal (d : option Z) (data : FirecrawlResult) (u : string)
  : CrawlResult :=
  {| url := or_str (fm_get fm_sourceURL (fc_metadata data)) u;
     markdown := fc_markdown data;
     html := fc_html data;
     text := or_str (fc_markdown data) (or_str (fc_html data) EmptyString);
     metadata := firecrawlMetadata data u;
     provider := firecrawl;
     subpages := None;
     depth := d |}.

(** scraper.ts *)
Definition normalizeFirecrawlResult (data : FirecrawlResult) (u : string)
  : ScrapeResult := firecrawlNormal None data u.

(** crawler.ts *)
Definition normalizeFirecrawlResultToCrawl (data : FirecrawlResult) (u : string)
  (d : Z) : CrawlResult := firecrawlNormal (Some d) data u.

Definition buildFirecrawlOptions (options : ScrapeOptions) : FirecrawlOptions :=
  let formats :=
    (if not_false (opt_markdown options) then ["markdown"] else [])
    ++ (if truthy_bool (opt_html options) then ["html"] else []) in
  let formats := if bool_decide (formats = []) then ["markdown"] else formats in
  mkFirecrawlOptions formats (opt_maxAge options)
    (if bool_decide (opt_maxAge options = Some 0) then Some false else None).

Definition firecrawlCatch {A} (r : JsError + A) : JsError + A :=
  match r with
  | inl error =>
      if isFirecrawlRateLimitError error
      then inl (rateLimitWrap "Firecrawl rate limit: " error)
      else inl error
  | inr a => inr a
  end.

(** [firecrawlResponse.data || {markdown, html, metadata, links}] *)
Definition firecrawlData (response : FirecrawlResponse) : FirecrawlResult :=
  match fr_data response with
  | Some d => d
  | None => mkFirecrawlResult (fr_markdown response) (fr_html response)
              (fr_metadata response) (fr_links response)
  end.

(** [firecrawlAdapter.scrape] *)
Definition firecrawl_scrape (t : Z) (u : string) (options : ScrapeOptions)
  : JsError + ScrapeResult :=
  if negb createFirecrawlClient
  then inl (plainError "Firecrawl not available: FIRECRAWL_API_KEY not set")
  else firecrawlCatch
    match firecrawlScrape t u (buildFirecrawlOptions options) with
    | inl e => inl e
    | inr response => inr (normalizeFirecrawlResult (firecrawlData response) u)
    end.

(** *** Cheerio *)

Definition metaSel (attr value : string) : string :=
  "meta[" +:+ attr +:+ "=" +:+ dquote +:+ value +:+ dquote +:+ "]".

Definition linkSel (rel : string) : string :=
  "link[rel=" +:+ dquote +:+ rel +:+ dquote +:+ "]".

Definition cheerioMetadata (page : string) (u : string) (article : Article)
  : list (string * JsVal) :=
  let content sel := selAttr page sel "content" in
  [("title", JStr (or_str (art_title article)
      (or_str (Some (selText page "title"))
         (or_str (content (metaSel "property" "og:title")) EmptyString))));
   ("description", JStr (or_str (content (metaSel "name" "description"))
      (or_str (content (metaSel "property" "og:description")) EmptyString)));
   ("author", JStr (or_str (content (metaSel "name" "author"))
      (or_str (content (metaSel "property" "article:author"))
         (or_str (art_byline article) EmptyString))));
   ("publishedDate", JStr (or_str (content (metaSel "property" "article:published_time"))
      (or_str (content (metaSel "name" "date")) EmptyString)));
   ("image", JStr (or_str (content (metaSel "property" "og:image"))
      (or_str (content (metaSel "name" "twitter:image")) EmptyString)));
   ("favicon", JStr (or_str (selAttr page (linkSel "icon") "href")
      (or_str (selAttr page (linkSel "shortcut icon") "href") EmptyString)));
   ("language", JStr (or_str (art_lang article)
      (or_str (Some (documentLang page u)) EmptyString)));
   ("excerpt", opt_val (art_excerpt article));
   ("siteName", opt_val (art_siteName article));
   ("sourceURL", JStr u)].

Definition cheerioNormal (d : option Z) (page : string) (u : string)
  (options : ScrapeOptions) : JsError + CrawlResult :=
  match readability page u with
  | None => inl (plainError ("Failed to parse readable content from: " +:+ u))
  | Some article =>
      let htmlContent := sanitize (or_str (art_content article) page) in
      let md := if not_false (opt_markdown options)
                then Some (turndown htmlContent) else None in
      let txt := truncate (opt_maxChars options)
                   (or_str (art_textContent article) EmptyString) in
      let md := match md with
                | Some m => if String.eqb m EmptyString then Some m
                            else Some (truncate (opt_maxChars options) m)
                | None => None
                end in
      inr {| url := u;
             text := txt;
             markdown := md;
             html := if truthy_bool (opt_html options) then Some htmlContent else None;
             metadata := cheerioMetadata page u article;
             provider := cheerio;
             subpages := None;
             depth := d |}
  end.

(** scraper.ts *)
Definition normalizeCheerioResult (page u : string) (options : ScrapeOptions)
  : JsError + ScrapeResult := cheerioNormal None page u options.

(** crawler.ts *)
Definition normalizeCheerioResultToCrawl (page u : string)
  (options : ScrapeOptions) (d : Z) : JsError + CrawlResult :=
  cheerioNormal (Some d) page u options.

Definition invalidURL : JsError := mkJsError "Invalid URL" false true.

Definition httpError (status u : string) : JsError :=
  plainError ("HTTP error! status: " +:+ status +:+ " for " +:+ u).

(** [cheerioAdapter.scrape] *)
Definition cheerio_scrape (t : Z) (u : string) (options : ScrapeOptions)
  : JsError + ScrapeResult :=
  let attempt :=
    match parseURL u None with
    | None => inl invalidURL
    | Some _ =>
        match fetch t u with
        | inl e => inl e
        | inr response =>
            if negb (resp_ok response)
            then inl (httpError (resp_status response) u)
            else normalizeCheerioResult (resp_text response) u options
        end
    end in
  match attempt with
  | inl error =>
      if isTypeError error && str_includes (message error) "Invalid URL"
      then inl (plainError ("Invalid URL: " +:+ u))
      else inl error
  | inr r => inr r
  end.

(** [getAdapter(provider).scrape], with the clock at which the call settles. *)
Definition scrapeAdapter (p : ScrapingProvider) (u : string)
  (options : ScrapeOptions) (t : Z) : (JsError + ScrapeResult) * Z :=
  (match p with
   | exa => exa_scrape t u options
   | firecrawl => firecrawl_scrape t u options
   | cheerio => cheerio_scrape t u options
   end, settle p u t).
End Adapters.

(** ** Link extraction (crawler.ts) *)

(** [Array.from(new Set(links))]: a [Set] keeps insertion order and ignores
    a value it already holds. *)
Fixpoint setFrom (seen : list string) (links : list string) : list string :=
  match links with
  | [] => []
  | x :: rest =>
      if bool_decide (x ∈ seen) then setFrom seen rest
      else x :: setFrom (x :: seen) rest
  end.

Section Links.
Context `{DomLibs}.

(** The body of the [each] callback: the link pushed for one anchor, if any. *)
Definition linkOf (baseUrl baseDomain : string) (sameDomainOnly : bool)
  (h : option string) : option string :=
  match h with
  | None => None
  | Some hr =>
      if String.eqb hr EmptyString || startsWith hr "#" || startsWith hr "mailto:"
      then None
      else
        match parseURL hr (Some baseUrl) with
        | None => None
        | Some abs =>
            let absoluteUrl := href abs in
            match parseURL absoluteUrl None with
            | None => None
            | Some u2 =>
                if sameDomainOnly && negb (String.eqb (hostname u2) baseDomain)
                then None
                else if startsWith absoluteUrl "http://"
                        || startsWith absoluteUrl "https://"
                then Some absoluteUrl
                else None
            end
        end
  end.

(** The [links] array before deduplication. *)
Definition pushedLinks (page baseUrl baseDomain : string) (sameDomainOnly : bool)
  : list string :=
  omap (linkOf baseUrl baseDomain sameDomainOnly) (anchorHrefs page).

Definition extractLinks (page baseUrl : string) (sameDomainOnly : bool)
  : JsError + list string :=
  match parseURL baseUrl None with
  | None => inl (mkJsError "Invalid URL" false true)
  | Some b => inr (setFrom [] (pushedLinks page baseUrl (hostname b) sameDomainOnly))
  end.
End Links.

(** ** Crawl adapters (crawler.ts) *)

Definition set_subpages (subs : option (list CrawlResult)) (r : CrawlResult)
  : CrawlResult :=
  mkCrawlResult (url r) (text r) (markdown r) (html r) (metadata r) (provider r)
    subs (depth r).

Definition set_depth (d : option Z) (r : CrawlResult) : CrawlResult :=
  mkCrawlResult (url r) (text r) (markdown r) (html r) (metadata r) (provider r)
    (subpages r) d.

(** [options.maxSubpages || 0] *)
Definition maxSubpages_or_0 (options : CrawlOptions) : Z :=
  match opt_maxSubpages options with Some n => n | None => 0 end.

(** [pMap(items, mapper, {concurrency})] under the schedule in which each
    call of the mapper settles before the next one starts (the only schedule
    with [concurrency: 1]); the results come in the order of the items, as
    with [p-map].  The mapper threads a state and may run out of fuel. *)
Fixpoint pMap {A B S} (mapper : A -> S -> option (B * S)) (items : list A) (s : S)
  : option (list B * S) :=
  match items with
  | [] => Some ([], s)
  | x :: rest =>
      '(y, s1) ← mapper x s;
      '(ys, s2) ← pMap mapper rest s1;
      Some (y :: ys, s2)
  end.

(** [try { return await f() } catch { return null }] *)
Definition tryCatchNull {A E S} (f : S -> option ((E + A) * S)) (s : S)
  : option (option A * S) :=
  '(r, s') ← f s;
  Some (match r with inr a => Some a | inl _ => None end, s').

Record CrawlStatus := mkCrawlStatus {
  cs_id : string;
  cs_success : bool;
  cs_error : option (string * option Z)
}.

Record CrawlBatchResult := mkCrawlBatchResult {
  results : list CrawlResult;
  statuses : list CrawlStatus
}.

Section CrawlAdapters.
Context `{DomLibs} `{Remote}.
Variable env : Env.

(** *** Exa *)

(** crawler.ts; the [subpages] array is built by mapping over
    [result.subpages.slice(0, maxSubpages)], written here as the slice of
    the mapped list. *)
Fixpoint normalizeExaResultToCrawl (result : ExaResult) (u : string)
  (options : CrawlOptions) (d : Z) {struct result} : CrawlResult :=
  let o := opt_base options in
  let exaText := or_str (exa_text result) EmptyString in
  let exaHtml := or_str (exa_html result) EmptyString in
  let isHtml := str_includes exaText "<" && str_includes exaText ">" in
  let htmlContent :=
    if String.eqb exaHtml EmptyString
    then (if isHtml then exaText else EmptyString) else exaHtml in
  let txt := if isHtml then or_str (bodyTextContent exaText) EmptyString
             else exaText in
  let md :=
    if not_false (opt_markdown o) then
      let m :=
        if negb isHtml && negb (String.eqb exaText EmptyString) then Some exaText
        else if negb (String.eqb htmlContent EmptyString)
        then Some (turndown (sanitize htmlContent))
        else None in
      match m with
      | Some s => if String.eqb s EmptyString then Some s
                  else Some (truncate (opt_maxChars o) s)
      | None => None
      end
    else None in
  let txt := truncate (opt_maxChars o) txt in
  let subs :=
    match exa_subpages result with
    | Some l =>
        slice0 (maxSubpages_or_0 options)
          (fmap (fun subpage =>
                  normalizeExaResultToCrawl subpage
                    (or_str (exa_url subpage) u) options (d + 1)) l)
    | None => []
    end in
  {| url := or_str (exa_url result) u;
     text := txt;
     markdown := md;
     html := if truthy_bool (opt_html o) then Some htmlContent else None;
     metadata := exaMetadata result u;
     provider := exa;
     subpages := if bool_decide (subs = []) then None else Some subs;
     depth := Some d |}.

(** crawler.ts *)
Definition buildExaOptionsCrawl (options : CrawlOptions) : ExaOptions :=
  let o := opt_base options in
  let wantSubpages :=
    truthy_num (opt_maxSubpages options) && (0 <? maxSubpages_or_0 options) in
  mkExaOptions (livecrawl_or_fallback o) (exaTextOption o)
    (if wantSubpages then opt_maxSubpages options else None)
    (if wantSubpages then
       match opt_subpageTarget options with
       | Some (inr l) => Some (String.concat "," l)
       | Some (inl s) => if String.eqb s EmptyString then None else Some s
       | None => None
       end
     else None).

(** [exaAdapter.crawl] *)
Definition exa_crawl (t : Z) (u : string) (options : CrawlOptions)
  : JsError + CrawlResult :=
  if negb (createExaClient env)
  then inl (plainError "Exa not available: EXA_API_KEY not set")
  else exaCatch
    match getContents t [u] (buildExaOptionsCrawl options) with
    | inl e => inl e
    | inr response =>
        match exa_results response with
        | Some (r0 :: _) => inr (normalizeExaResultToCrawl r0 u options 0)
        | _ => inl (plainError ("No results from Exa for: " +:+ u))
        end
    end.

(** *** Cheerio *)

Section CheerioCrawl.
Variable t : Z.
Variable options : CrawlOptions.

(** [options.maxDepth ?? 1] *)
Definition maxDepth_of : Z :=
  match opt_maxDepth options with Some n => n | None => 1 end.

Definition sameDomainOnly_of : bool := not_false (opt_sameDomainOnly options).

(** The links a page at depth [d] is expanded into:
    [links.filter(link => !visitedUrls.has(link)).slice(0, maxSubpages)]. *)
Definition linksToCrawlOf (links : list string) (visitedUrls : gset string)
  : list string :=
  slice0 (maxSubpages_or_0 options)
    (filter (fun link => link ∉ visitedUrls) links).

(** [crawlRecursive(currentUrl, depth)] over the [visitedUrls] set.  The
    recursion goes one level down per unit of fuel; [None] is fuel
    exhaustion, never a behaviour of the code. *)
Fixpoint crawlRecursive (fuel : nat) (currentUrl : string) (d : Z)
  (visitedUrls : gset string)
  : option ((JsError + CrawlResult) * gset string) :=
  match fuel with
  | O => None
  | S fuel' =>
    if bool_decide (currentUrl ∈ visitedUrls) || (maxDepth_of <? d)
    then Some (inl (plainError
           ("URL already visited or max depth reached: " +:+ currentUrl)),
           visitedUrls)
    else
    let visitedUrls := {[currentUrl]} ∪ visitedUrls in
    match parseURL currentUrl None with
    | None => Some (inl (plainError ("Invalid URL: " +:+ currentUrl)), visitedUrls)
    | Some _ =>
    match fetch t currentUrl with
    | inl e => Some (inl e, visitedUrls)
    | inr response =>
    if negb (resp_ok response)
    then Some (inl (httpError (resp_status response) currentUrl), visitedUrls)
    else
    let page := resp_text response in
    match normalizeCheerioResultToCrawl page currentUrl (opt_base options) d with
    | inl e => Some (inl e, visitedUrls)
    | inr result =>
    if (d <? maxDepth_of) && (0 <? maxSubpages_or_0 options)
    then
      match extractLinks page currentUrl sameDomainOnly_of with
      | inl e => Some (inl e, visitedUrls)
      | inr links =>
          let linksToCrawl := linksToCrawlOf links visitedUrls in
          if bool_decide (linksToCrawl = [])
          then Some (inr result, visitedUrls)
          else
            '(subpageResults, visited') ←
              pMap (fun link => tryCatchNull (crawlRecursive fuel' link (d + 1)))
                linksToCrawl visitedUrls;
            Some (inr (set_subpages (Some (omap id subpageResults)) result),
                  visited')
      end
    else Some (inr result, visitedUrls)
    end
    end
    end
  end.

(** The links a call on [currentUrl] at depth [d] goes on to crawl once its
    page is fetched and normalised: none when the depth or the subpage budget
    forbids it. *)
Definition expansion (currentUrl : string) (d : Z) (visitedUrls : gset string)
  (page : string) : list string :=
  if (d <? maxDepth_of) && (0 <? maxSubpages_or_0 options) then
    match extractLinks page currentUrl sameDomainOnly_of with
    | inr links => linksToCrawlOf links ({[currentUrl]} ∪ visitedUrls)
    | inl _ => []
    end
  else [].

(** Fuel for a crawl from depth [0]: one unit per level down to [maxDepth]. *)
Definition crawlFuel : nat := S (Z.to_nat maxDepth_of).

(** [cheerioAdapter.crawl] *)
Definition cheerio_crawl (u : string) : JsError + CrawlResult :=
  match crawlRecursive crawlFuel u 0 ∅ with
  | Some (r, _) => r
  | None => inl (plainError "out of fuel")
  end.
End CheerioCrawl.

Definition statusCodeOf (msg : string) : option Z :=
  if str_includes msg "404" then Some 404
  else if str_includes msg "403" then Some 403 else None.

(** [cheerioAdapter.crawlBatch]: every root gets its own [visitedUrls]. *)
Definition cheerio_crawlBatch (t : Z) (urls : list string) (options : CrawlOptions)
  : CrawlBatchResult :=
  let crawlResults := fmap (fun u => (u, cheerio_crawl t options u)) urls in
  mkCrawlBatchResult
    (omap (fun item => match item.2 with inr r => Some r | inl _ => None end)
       crawlResults)
    (fmap (fun item =>
            match item.2 with
            | inr _ => mkCrawlStatus item.1 true None
            | inl e => mkCrawlStatus item.1 false
                         (Some ("CRAWL_ERROR", statusCodeOf (message e)))
            end) crawlResults).

(** *** Firecrawl *)

(** [{...options, maxSubpages: 0, maxDepth: (options.maxDepth || 1) - 1}] *)
Definition firecrawlSubpageOptions (options : CrawlOptions) : CrawlOptions :=
  mkCrawlOptions (opt_base options) (Some 0)
    (Some (match opt_maxDepth options with
           | Some n => if n =? 0 then 1 else n
           | None => 1
           end - 1))
    (opt_subpageTarget options) (opt_concurrency options)
    (opt_sameDomainOnly options).

(** [{...r, depth: (r.depth || 0) + 1}] *)
Definition bumpDepth (r : CrawlResult) : CrawlResult :=
  set_depth (Some (match depth r with Some n => n | None => 0 end + 1)) r.

(** [firecrawlAdapter.crawl] *)
Definition firecrawl_crawl (t : Z) (u : string) (options : CrawlOptions)
  : JsError + CrawlResult :=
  if negb (createFirecrawlClient env)
  then inl (plainError "Firecrawl not available: FIRECRAWL_API_KEY not set")
  else firecrawlCatch
    match firecrawlScrape t u (buildFirecrawlOptions (opt_base options)) with
    | inl e => inl e
    | inr response =>
        let data := firecrawlData response in
        let result := normalizeFirecrawlResultToCrawl data u 0 in
        match fc_links data with
        | Some links =>
            if truthy_num (opt_maxSubpages options)
               && (0 <? maxSubpages_or_0 options)
            then
              let maxSubpages :=
                Z.min (maxSubpages_or_0 options) (Z.of_nat (length links)) in
              let subpageUrls := slice0 maxSubpages links in
              let subpageResults :=
                cheerio_crawlBatch t subpageUrls (firecrawlSubpageOptions options) in
              inr (set_subpages (Some (bumpDepth <$> results subpageResults)) result)
            else inr result
        | None => inr result
        end
    end.

(** [getAdapter(provider).crawl], with the clock at which the call settles. *)
Definition crawlAdapter (p : ScrapingProvider) (u : string)
  (options : CrawlOptions) (t : Z) : (JsError + CrawlResult) * Z :=
  (match p with
   | exa => exa_crawl t u options
   | firecrawl => firecrawl_crawl t u options
   | cheerio => cheerio_crawl t options u
   end, settle p u t).
End CrawlAdapters.

(** ** Entry points *)

Definition or_default {A} (d : A) (o : option A) : option A :=
  match o with Some x => Some x | None => Some d end.

(** [{ ...DEFAULT_OPTIONS, ...options }] of scraper.ts; a key the caller
    leaves out takes the default. *)
Definition scrapeDefaults (o : ScrapeOptions) : ScrapeOptions :=
  mkScrapeOptions (opt_provider o)
    (or_default true (opt_fallback o))
    (or_default true (opt_markdown o))
    (or_default false (opt_html o))
    (opt_maxChars o) (opt_livecrawl o) (opt_maxAge o).

(** [{ ...DEFAULT_OPTIONS, ...options }] of crawler.ts. *)
Definition crawlDefaults (o : CrawlOptions) : CrawlOptions :=
  mkCrawlOptions (scrapeDefaults (opt_base o))
    (or_default 0 (opt_maxSubpages o))
    (or_default 1 (opt_maxDepth o))
    (opt_subpageTarget o)
    (or_default 5 (opt_concurrency o))
    (or_default true (opt_sameDomainOnly o)).

Section EntryPoints.
Context `{DomLibs} `{Remote}.
Variable env : Env.

Definition scrape (u : string) (options : ScrapeOptions) (w : World)
  : (JsError + ScrapeResult) * World :=
  entry "scraping" id scrapeDefaults env (scrapeAdapter env) u options w.

Definition crawl (u : string) (options : CrawlOptions) (w : World)
  : (JsError + CrawlResult) * World :=
  entry "crawling" opt_base crawlDefaults env (crawlAdapter env) u options w.
End EntryPoints.

(** ** Result trees *)

(** All nodes of a result tree, the root first. *)
Fixpoint nodes (r : CrawlResult) : list CrawlResult :=
  r :: match subpages r with
       | Some l => mjoin (nodes <$> l)
       | None => []
       end.

(** A tree whose root sits at depth [d], whose subpages sit one below their
    parent, and whose depths all satisfy [P]. *)
#[local] Unset Elimination Schemes.
Inductive TreeAt (P : Z → Prop) : Z → CrawlResult → Prop :=
| TreeAt_node d r :
    depth r = Some d →
    P d →
    (∀ l, subpages r = Some l → Forall (TreeAt P (d + 1)) l) →
    TreeAt P d r.
#[local] Set Elimination Schemes.

(** ** Traces of tracker operations

    The tracker is one object per module, shared by every request in flight;
    between two reads any of its transitions may happen.  A trace lists the
    transitions with the clock value at which each one runs. *)

Inductive TrackerOp :=
| OpSuccess (p : ScrapingProvider)
| OpRateLimit (p : ScrapingProvider)
| OpError (p : ScrapingProvider)
| OpRead (p : ScrapingProvider)
| OpList.

#[global] Instance TrackerOp_eq_dec : EqDecision TrackerOp.
Proof. solve_decision. Defined.

Definition applyOp (env : Env) (st : TrackerState) (top : Z * TrackerOp)
  : TrackerState :=
  match top.2 with
  | OpSuccess p => recordSuccess top.1 p st
  | OpRateLimit p => recordRateLimit top.1 p st
  | OpError p => recordError p st
  | OpRead p => (isRateLimited top.1 p st).2
  | OpList => (getAvailableProviders env top.1 st).2
  end.

Definition runOps (env : Env) (ops : list (Z * TrackerOp)) (st : TrackerState)
  : TrackerState := foldl (applyOp env) st ops.

(** Limited, with a reset time not before [r]: what a trace without a
    success for [p] preserves. *)
Definition limitedFrom (r : Z) (p : ScrapingProvider) (st : TrackerState) : Prop :=
  isLimited (rateLimit (get p st)) = true
  ∧ ∃ r', resetAt (rateLimit (get p st)) = Some r' ∧ r ≤ r'.

(** ** Batch operations *)

(** [initProviders()]: the [available] flag of every provider is set from
    its adapter. *)
Definition initProviders (env : Env) (st : TrackerState) : TrackerState :=
  setAvailable cheerio (adapter_available env cheerio)
    (setAvailable firecrawl (adapter_available env firecrawl)
       (setAvailable exa (adapter_available env exa) st)).

Record ExaStatus := mkExaStatus {
  xs_id : option string;
  xs_status : option string;
  (** [error?: { tag?, httpStatusCode? }] *)
  xs_error : option (option string * option Z)
}.

Record ScrapeBatchResult := mkScrapeBatchResult {
  sb_results : list ScrapeResult;
  sb_statuses : option (list CrawlStatus)
}.

(** One entry of [normalizeExaStatuses] (scraper.ts) and of the [map] in
    [exaAdapter.crawlBatch] (crawler.ts). *)
Definition normalizeExaStatus (s : ExaStatus) : CrawlStatus :=
  mkCrawlStatus (or_str (xs_id s) EmptyString)
    (bool_decide (xs_status s = Some "success"))
    (match xs_error s with
     | Some (tag, code) => Some (or_str tag "UNKNOWN_ERROR", code)
     | None => None
     end).

Definition normalizeExaStatuses (statuses : option (list ExaStatus))
  : option (list CrawlStatus) :=
  match statuses with
  | Some l => Some (normalizeExaStatus <$> l)
  | None => None
  end.

(** The [statuses] field of what [client.getContents] resolves to (its
    [results] field is [getContents]). *)
Class ExaStatuses := {
  getStatuses : Z -> list string -> ExaOptions -> option (list ExaStatus)
}.

(** The loop of the Firecrawl and cheerio batch methods:
    [for (const url of urls) { try { results.push(await one(url));
    statuses.push({id: url, status: "success"}) } catch (error) {
    statuses.push({id: url, status: "error", error: {tag: "CRAWL_ERROR",
    httpStatusCode}}) } }]. *)
Fixpoint batchLoop {A} (one : string -> JsError + A) (urls : list string)
  : list A * list CrawlStatus :=
  match urls with
  | [] => ([], [])
  | u :: rest =>
      let '(rs, ss) := batchLoop one rest in
      match one u with
      | inr r => (r :: rs, mkCrawlStatus u true None :: ss)
      | inl error =>
          (rs, mkCrawlStatus u false
                 (Some ("CRAWL_ERROR", statusCodeOf (message error))) :: ss)
      end
  end.

Section BatchAdapters.
Context `{DomLibs} `{Remote} `{ExaStatuses}.
Variable env : Env.

(** [exaAdapter.scrapeBatch] *)
Definition exa_scrapeBatch (t : Z) (urls : list string) (options : ScrapeOptions)
  : JsError + ScrapeBatchResult :=
  if negb (createExaClient env)
  then inl (plainError "Exa not available: EXA_API_KEY not set")
  else exaCatch
    match getContents t urls (buildExaOptions options) with
    | inl e => inl e
    | inr response =>
        inr (mkScrapeBatchResult
               ((fun r => normalizeExaResult r (or_str (exa_url r) EmptyString) options)
                  <$> match exa_results response with Some l => l | None => [] end)
               (normalizeExaStatuses
                  (getStatuses t urls (buildExaOptions options))))
    end.

(** [firecrawlAdapter.scrapeBatch] *)
Definition firecrawl_scrapeBatch (t : Z) (urls : list string)
  (options : ScrapeOptions) : JsError + ScrapeBatchResult :=
  if negb (createFirecrawlClient env)
  then inl (plainError "Firecrawl not available: FIRECRAWL_API_KEY not set")
  else
    let '(rs, ss) := batchLoop (fun u => firecrawl_scrape env t u options) urls in
    inr (mkScrapeBatchResult rs (Some ss)).

(** [cheerioAdapter.scrapeBatch] *)
Definition cheerio_scrapeBatch (t : Z) (urls : list string)
  (options : ScrapeOptions) : JsError + ScrapeBatchResult :=
  let '(rs, ss) := batchLoop (fun u => cheerio_scrape t u options) urls in
  inr (mkScrapeBatchResult rs (Some ss)).

(** [getAdapter(provider).scrapeBatch]; the batch settles when the call for
    its first URL would (any clock value would do for what is proved). *)
Definition scrapeBatchAdapter (p : ScrapingProvider) (urls : list string)
  (options : ScrapeOptions) (t : Z) : (JsError + ScrapeBatchResult) * Z :=
  (match p with
   | exa => exa_scrapeBatch t urls options
   | firecrawl => firecrawl_scrapeBatch t urls options
   | cheerio => cheerio_scrapeBatch t urls options
   end, settle p (match urls with u :: _ => u | [] => EmptyString end) t).



End BatchAdapters.

(** [scrapeBatch] in scraper.ts, [crawlBatch] in crawler.ts: the entry point
    with the fallback logic written out in its body. *)
Section BatchOrchestrator.
Context {O RB : Type}.
Variable what : string.
Variable base_of : O -> ScrapeOptions.
Variable with_defaults : O -> O.
Variable env : Env.
Variable callBatch : ScrapingProvider -> list string -> O -> Z -> (JsError + RB) * Z.

(** [await adapter.scrapeBatch(urls, opts)] *)
Definition invokeBatch (p : ScrapingProvider) (urls : list string) (o : O)
  (w : World) : (JsError + RB) * World :=
  let '(out, t') := callBatch p urls o (clock w) in
  (out, mkWorld (tracker w) t' (calls w ++ [p])).

Fixpoint tryBatchAlternatives (alts : list ScrapingProvider) (urls : list string)
  (o : O) (w : World) : option RB * World :=
  match alts with
  | [] => (None, w)
  | alt :: rest =>
      let '(ok, st1) := usable env (clock w) alt (tracker w) in
      let w1 := with_tracker st1 w in
      if ok then
        let '(out, w2) := invokeBatch alt urls o w1 in
        match out with
        | inr r => (Some r, with_tracker (recordSuccess (clock w2) alt (tracker w2)) w2)
        | inl fallbackError =>
            let st3 := if isRateLimit fallbackError
                       then recordRateLimit (clock w2) alt (tracker w2)
                       else recordError alt (tracker w2) in
            tryBatchAlternatives rest urls o (with_tracker st3 w2)
        end
      else tryBatchAlternatives rest urls o w1
  end.

Definition entryBatch (urls : list string) (options : O) (w : World)
  : (JsError + RB) * World :=
  let opts := with_defaults options in
  let b := base_of opts in
  let '(sel, st1) :=
    selectProvider env (clock w) (opt_provider b) (not_false (opt_fallback b))
      (truthy_bool (opt_html b)) (tracker w) in
  let w1 := with_tracker st1 w in
  match sel with
  | None =>
      let exaAvail := adapter_available env exa in
      let fcAvail := adapter_available env firecrawl in
      let cheerioAvail := adapter_available env cheerio in
      if negb exaAvail && negb fcAvail && negb cheerioAvail
      then (inl (noProvidersError what), w1)
      else if not_false (opt_fallback b) then
        let tryProvider :=
          match opt_provider b with
          | Some q => q
          | None => if cheerioAvail then cheerio
                    else if exaAvail then exa else firecrawl
          end in
        invokeBatch tryProvider urls opts w1
      else (inl (providerUnavailableError (opt_provider b)), w1)
  | Some p =>
      let '(out, w2) := invokeBatch p urls opts w1 in
      match out with
      | inr r => (inr r, with_tracker (recordSuccess (clock w2) p (tracker w2)) w2)
      | inl error =>
          if isRateLimit error && not_false (opt_fallback b) then
            let w3 := with_tracker (recordRateLimit (clock w2) p (tracker w2)) w2 in
            match tryBatchAlternatives (alternatives p) urls opts w3 with
            | (Some r, w4) => (inr r, w4)
            | (None, w4) => (inl error, w4)
            end
          else if isRateLimit error
          then (inl error, with_tracker (recordRateLimit (clock w2) p (tracker w2)) w2)
          else (inl error, with_tracker (recordError p (tracker w2)) w2)
      end
  end.
End BatchOrchestrator.

Section BatchEntryPoints.
Context `{DomLibs} `{Remote} `{ExaStatuses}.
Variable env : Env.

Definition scrapeBatch (urls : list string) (options : ScrapeOptions) (w : World)
  : (JsError + ScrapeBatchResult) * World :=
  entryBatch "scraping" id scrapeDefaults env (scrapeBatchAdapter env) urls options w.

End BatchEntryPoints.

(** ** Tool layer (scraper-tool.ts, crawler-tool.ts)

    The tools validate their input against a schema and call the library with
    the caller's values merged over the configured defaults. *)

Record ScrapeToolConfig := mkScrapeToolConfig {
  defaultProvider : option ScrapingProvider;
  defaultMaxChars : option Z;
  defaultFallback : option bool;
  defaultMarkdown : option bool;
  defaultHtml : option bool;
  defaultLivecrawl : option Livecrawl;
  defaultMaxAge : option Z
}.

Record CrawlToolConfig := mkCrawlToolConfig {
  defaultScrape : ScrapeToolConfig;
  defaultMaxSubpages : option Z;
  defaultMaxDepth : option Z;
  defaultConcurrency : option Z;
  defaultSameDomainOnly : option bool;
  defaultSubpageTarget : option (string + list string)
}.

(** [a ?? b] *)
Definition nullish {A} (a b : option A) : option A :=
  match a with Some x => Some x | None => b end.

(** [a || b] on optional numbers: [undefined] and [0] are falsy. *)
Definition or_num (a b : option Z) : option Z :=
  match a with
  | Some n => if n =? 0 then b else Some n
  | None => b
  end.

(** [a || b] on the optional keyword(s): [undefined] and the empty string are
    falsy, an array is not. *)
Definition or_target (a b : option (string + list string))
  : option (string + list string) :=
  match a with
  | Some (inl s) => if String.eqb s EmptyString then b else a
  | Some (inr _) => a
  | None => b
  end.

(** The options [createScrapeTool(config)] passes to [scrape]. *)
Definition scrapeToolOptions (cfg : ScrapeToolConfig) (input : ScrapeOptions)
  : ScrapeOptions :=
  mkScrapeOptions
    (nullish (opt_provider input) (defaultProvider cfg))
    (nullish (opt_fallback input) (defaultFallback cfg))
    (nullish (opt_markdown input) (defaultMarkdown cfg))
    (nullish (opt_html input) (defaultHtml cfg))
    (or_num (opt_maxChars input) (defaultMaxChars cfg))
    (nullish (opt_livecrawl input) (defaultLivecrawl cfg))
    (or_num (opt_maxAge input) (defaultMaxAge cfg)).

(** The options [createCrawlTool(config)] and [createCrawlBatchTool(config)]
    pass to [crawl] and [crawlBatch]. *)
Definition crawlToolOptions (cfg : CrawlToolConfig) (input : CrawlOptions)
  : CrawlOptions :=
  mkCrawlOptions
    (scrapeToolOptions (defaultScrape cfg) (opt_base input))
    (nullish (opt_maxSubpages input) (defaultMaxSubpages cfg))
    (or_num (opt_maxDepth input) (defaultMaxDepth cfg))
    (or_target (opt_subpageTarget input) (defaultSubpageTarget cfg))
    (or_num (opt_concurrency input) (defaultConcurrency cfg))
    (nullish (opt_sameDomainOnly input) (defaultSameDomainOnly cfg)).

Section Tools.
Context `{DomLibs} `{Remote}.
Variable env : Env.

(** [createScrapeTool(config).execute].  The object literal it passes to
    [scrape] has every key, those whose value is [undefined] included, so the
    spread [{ ...DEFAULT_OPTIONS, ...options }] of [scrape] takes every value
    from it: the options reach the provider selection and the adapters as the
    tool built them. *)
Definition scrapeToolExecute (cfg : ScrapeToolConfig) (u : string)
  (input : ScrapeOptions) (w : World) : (JsError + ScrapeResult) * World :=
  entry "scraping" id id env (scrapeAdapter env) u (scrapeToolOptions cfg input) w.

(** [createCrawlTool(config).execute], which passes every key to [crawl] in
    the same way. *)
Definition crawlToolExecute (cfg : CrawlToolConfig) (u : string)
  (input : CrawlOptions) (w : World) : (JsError + CrawlResult) * World :=
  entry "crawling" opt_base id env (crawlAdapter env) u
    (crawlToolOptions cfg input) w.
End Tools.

(** ** Auxiliary notions for the properties *)

(** The value of a settled promise, if it was fulfilled. *)
Definition successOf {A} (r : JsError + A) : option A :=
  match r with inr a => Some a | inl _ => None end.

(** The invariant of the data model: a limited provider has a reset time. *)
Definition wellFormed (st : TrackerState) : Prop :=
  ∀ p, isLimited (rateLimit (get p st)) = true →
       is_Some (resetAt (rateLimit (get p st))).

(** What one evaluation of [adapter.available() && !isRateLimited(p)] does to
    the state of [p]. *)
Definition stepState (env : Env) (now : Z) (p : ScrapingProvider)
  (s : ProviderState) : ProviderState :=
  if adapter_available env p && isLimited (rateLimit s)
  then match resetAt (rateLimit s) with
       | Some r => if r <=? now
                   then mkProviderState (available s)
                          (mkRateLimitState false None (errors (rateLimit s)))
                          (lastSuccess s)
                   else s
       | None => s
       end
  else s.

(** [s] occurs in [t]: [t.includes(s)] for a non-empty [s]. *)
Definition occursIn (s t : string) : Prop := ∃ pre post, t = pre +:+ s +:+ post.

(** ** Sample collaborators

    Small stand-ins for the external libraries and the network, used to run
    the definitions on concrete inputs. *)

Fixpoint uptoSlash (s : string) : string :=
  match s with
  | EmptyString => EmptyString
  | String c rest =>
      if Ascii.eqb c "/"%char then EmptyString else String c (uptoSlash rest)
  end.

Definition dropPrefix (n : nat) (s : string) : string :=
  String.substring n (String.length s - n) s.

(** Origin and host of an absolute http(s) URL. *)
Definition sampleOrigin (s : string) : option (string * string) :=
  if startsWith s "http://"
  then let h := uptoSlash (dropPrefix 7 s) in Some ("http://" +:+ h, h)
  else if startsWith s "https://"
  then let h := uptoSlash (dropPrefix 8 s) in Some ("https://" +:+ h, h)
  else None.

(** A URL parser for absolute http(s) URLs, [mailto:] URLs and paths that
    start with a slash; anything else is malformed. *)
Definition sampleParseURL (input : string) (base : option string) : option URL :=
  match sampleOrigin input with
  | Some (_, h) => Some (mkURL input h)
  | None =>
      if startsWith input "mailto:" then Some (mkURL input EmptyString)
      else if startsWith input "/" then
        match base ≫= sampleOrigin with
        | Some (o, h) => Some (mkURL (o +:+ input) h)
        | None => None
        end
      else None
  end.

(** Words of a string, split at spaces. *)
Fixpoint wordsFrom (cur : string) (s : string) : list string :=
  match s with
  | EmptyString => [cur]
  | String c rest =>
      if Ascii.eqb c " "%char then cur :: wordsFrom EmptyString rest
      else wordsFrom (cur +:+ String c EmptyString) rest
  end.

(** A page is its own readable text, and lists its anchors' hrefs separated by
    spaces; the empty page is not readable. *)
Definition sampleDom : DomLibs :=
  {| readability := fun page _ =>
       if String.eqb page EmptyString then None
       else Some (mkArticle None None (Some page) (Some page) None None None);
     sanitize := fun s => s;
     turndown := fun s => s;
     bodyTextContent := fun s => Some s;
     documentLang := fun _ _ => EmptyString;
     selText := fun _ _ => EmptyString;
     selAttr := fun _ _ _ => None;
     anchorHrefs := fun page => Some <$> wordsFrom EmptyString page;
     parseURL := sampleParseURL |}.

Definition sampleRemote
  (exaReply : JsError + ExaResponse)
  (firecrawlReply : JsError + FirecrawlResponse)
  (web : string -> JsError + HttpResponse) : Remote :=
  {| exaClient := fun _ => true;
     firecrawlClient := fun _ => true;
     getContents := fun _ _ _ => exaReply;
     firecrawlScrape := fun _ _ _ => firecrawlReply;
     fetch := fun _ u => web u;
     settle := fun _ _ t => t + 1 |}.

Definition envAllKeys : Env := mkEnv (Some "k1") (Some "k2") None.

Definition envNoKeys : Env := mkEnv None None None.

Definition noScrapeOptions : ScrapeOptions :=
  mkScrapeOptions None None None None None None None.

Definition noCrawlOptions : CrawlOptions :=
  mkCrawlOptions noScrapeOptions None None None None None.

Definition world0 : World := mkWorld createRateLimitState 1000 [].

(** Every backend refuses: Exa and Firecrawl with quota messages, the web
    with a connection error. *)
Definition remoteAllDown : Remote :=
  sampleRemote (inl (plainError "429 Too Many Requests"))
    (inl (plainError "quota exceeded"))
    (fun _ => inl (plainError "connect ECONNREFUSED")).

(** Firecrawl answers with ten characters of markdown. *)
Definition remoteFirecrawlTen : Remote :=
  sampleRemote (inl (plainError "unused"))
    (inr (mkFirecrawlResponse None (Some "0123456789") None None None))
    (fun _ => inl (plainError "unused")).


Definition okPage (body : string) : JsError + HttpResponse :=
  inr (mkHttpResponse true "200" body).


(** A site whose front page links to [/x] and [/y]; [/x] links back to the
    front page and on to [/z]. *)
Definition remoteSmallSite : Remote :=
  sampleRemote (inl (plainError "unused")) (inl (plainError "unused"))
    (fun u => if String.eqb u "https://a.com/" then okPage "/x /y"
              else if String.eqb u "https://a.com/x" then okPage "/ /z"
              else if String.eqb u "https://a.com/y" then okPage "leaf"
              else if String.eqb u "https://a.com/z" then okPage "leaf"
              else inl (plainError "connect ECONNREFUSED")).

Definition exaPage (t : string) (subs : option (list ExaResult)) : ExaResult :=
  mkExaResult None (Some t) None None None None None None None subs [].

(** Exa answers with a page, a subpage of it, and a subpage of that one. *)
Definition remoteExaNested : Remote :=
  sampleRemote
    (inr (mkExaResponse
            (Some [exaPage "root"
                     (Some [exaPage "child"
                              (Some [exaPage "grandchild" None])])])))
    (inl (plainError "unused"))
    (fun _ => inl (plainError "unused")).

(** Firecrawl answers with a page that links to [https://a.com/x], which the
    web serves. *)
Definition remoteFirecrawlLinks : Remote :=
  sampleRemote (inl (plainError "unused"))
    (inr (mkFirecrawlResponse None (Some "root") None None
            (Some ["https://a.com/x"])))
    (fun u => if String.eqb u "https://a.com/x" then okPage "leaf"
              else inl (plainError "connect ECONNREFUSED")).

(** Exa answers without results. *)
Definition remoteExaEmpty : Remote :=
  sampleRemote (inr (mkExaResponse (Some [])))
    (inl (plainError "unused"))
    (fun _ => inl (plainError "unused")).

(** The web answers every request with the status 429. *)
Definition remoteHttp429 : Remote :=
  sampleRemote (inl (plainError "unused")) (inl (plainError "unused"))
    (fun _ => inr (mkHttpResponse false "429" "slow down")).

(** Exa refuses with a quota message, Firecrawl answers with ten characters
    of markdown. *)
Definition remoteExaLimited : Remote :=
  sampleRemote (inl (plainError "429 Too Many Requests"))
    (inr (mkFirecrawlResponse None (Some "0123456789") None None None))
    (fun _ => inl (plainError "unused")).


(** The web answers every request with the status 500. *)
Definition remoteHttp500 : Remote :=
  sampleRemote (inl (plainError "unused")) (inl (plainError "unused"))
    (fun _ => inr (mkHttpResponse false "500" "oops")).

(** No statuses come with Exa's answers. *)
Definition noExaStatuses : ExaStatuses := {| getStatuses := fun _ _ _ => None |}.

(** * Properties *)

(** ** Provider state tracker *)

Lemma get_set_eq p v st : get p (set p v st) = v.
Proof. by destruct p. Qed.

Lemma get_set_ne p q v st : q ≠ p → get q (set p v st) = get q st.
Proof. by destruct p, q. Qed.

Lemma set_get p st : set p (get p st) st = st.
Proof. by destruct p, st. Qed.

(** C10: [recordSuccess(p)] stamps [lastSuccess], clears the limited flag and
    the error count of [p], and touches neither [available] and [resetAt] of
    [p] nor any other provider. *)
Theorem recordSuccess_frame (now : Z) (p : ScrapingProvider) (st : TrackerState) :
  let st' := recordSuccess now p st in
  lastSuccess (get p st') = Some now
  ∧ isLimited (rateLimit (get p st')) = false
  ∧ errors (rateLimit (get p st')) = 0%nat
  ∧ available (get p st') = available (get p st)
  ∧ resetAt (rateLimit (get p st')) = resetAt (rateLimit (get p st))
  ∧ ∀ q, q ≠ p → get q st' = get q st.
Proof.
  unfold recordSuccess; cbn zeta.
  rewrite get_set_eq; cbn.
  repeat split; intros q Hq; by rewrite get_set_ne.
Qed.

Lemma recordSuccess_frame_witness :
  let st := recordError exa (recordRateLimit 5 exa createRateLimitState) in
  errors (rateLimit (get exa st)) = 2%nat
  ∧ errors (rateLimit (get exa (recordSuccess 9 exa st))) = 0%nat
  ∧ get firecrawl (recordSuccess 9 exa st) = get firecrawl st.
Proof.
  intros st.
  destruct (recordSuccess_frame 9 exa st) as (_ & _ & He & _ & _ & Hq).
  split; [reflexivity|]. split; [exact He|]. by apply Hq.
Defined.

Lemma isRateLimited_other now p q st :
  q ≠ p → get q (isRateLimited now p st).2 = get q st.
Proof.
  intros Hq. unfold isRateLimited.
  destruct (isLimited _); cbn; [|done].
  destruct (resetAt _) as [r|]; [|done].
  destruct (r <=? now); cbn; [|done].
  unfold clearLimit. by rewrite get_set_ne.
Qed.

Lemma isRateLimited_before now p st r :
  isLimited (rateLimit (get p st)) = true →
  resetAt (rateLimit (get p st)) = Some r →
  now < r →
  isRateLimited now p st = (true, st).
Proof.
  intros Hl Hr Hlt. unfold isRateLimited. rewrite Hl, Hr. cbn.
  destruct (Z.leb_spec r now); [lia|done].
Qed.

Lemma isRateLimited_after now p st r :
  isLimited (rateLimit (get p st)) = true →
  resetAt (rateLimit (get p st)) = Some r →
  r ≤ now →
  isRateLimited now p st = (false, clearLimit p st).
Proof.
  intros Hl Hr Hle. unfold isRateLimited. rewrite Hl, Hr. cbn.
  destruct (Z.leb_spec r now); [done|lia].
Qed.

Lemma usable_other env now p q st :
  q ≠ p → get q (usable env now p st).2 = get q st.
Proof.
  intros Hq. unfold usable. destruct (adapter_available env p); [|done].
  pose proof (isRateLimited_other now p q st Hq) as Hi.
  by destruct (isRateLimited now p st).
Qed.

(** A provider that is limited until after [now] is left alone, and left out,
    by a pass of the availability filter. *)
Lemma filter_usable_limited env now p r ps st :
  isLimited (rateLimit (get p st)) = true →
  resetAt (rateLimit (get p st)) = Some r →
  now < r →
  get p (filter_usable env now ps st).2 = get p st
  ∧ p ∉ (filter_usable env now ps st).1.
Proof.
  intros Hl Hr Hlt. revert st Hl Hr.
  induction ps as [|q ps IH]; intros st Hl Hr; cbn.
  { split; [done|]. apply not_elem_of_nil. }
  destruct (usable env now q st) as [b st1] eqn:Hu.
  assert (get p st1 = get p st ∧ (q = p → b = false)) as [Hst1 Hb].
  { destruct (decide (q = p)) as [->|Hne].
    - unfold usable in Hu. destruct (adapter_available env p).
      + rewrite (isRateLimited_before now p st r Hl Hr Hlt) in Hu.
        by inversion Hu.
      + by inversion Hu.
    - split; [|done].
      pose proof (usable_other env now q p st) as Ho.
      rewrite Hu in Ho. apply Ho. done. }
  destruct (IH st1) as [IH1 IH2]; [by rewrite Hst1..|].
  destruct (filter_usable env now ps st1) as [l st2]; cbn in *.
  split; [by rewrite IH1|].
  destruct b; [|done].
  apply not_elem_of_cons. split; [|done].
  intros ->. by specialize (Hb eq_refl).
Qed.

Lemma applyOp_limitedFrom env t0 p st top :
  limitedFrom (t0 + RATE_LIMIT_COOLDOWN_MS) p st →
  t0 ≤ top.1 < t0 + RATE_LIMIT_COOLDOWN_MS →
  top.2 ≠ OpSuccess p →
  limitedFrom (t0 + RATE_LIMIT_COOLDOWN_MS) p (applyOp env st top)
  ∧ (top.2 ≠ OpRateLimit p →
     resetAt (rateLimit (get p (applyOp env st top)))
     = resetAt (rateLimit (get p st))).
Proof.
  intros (Hl & r' & Hr & Hle) Ht Hop.
  destruct top as [ti op]; cbn [fst snd] in *.
  unfold applyOp; cbn [fst snd].
  destruct op as [q|q|q|q|].
  - assert (q ≠ p) by congruence.
    unfold limitedFrom, recordSuccess. rewrite get_set_ne by done. eauto 6.
  - destruct (decide (q = p)) as [->|Hne].
    + unfold limitedFrom, recordRateLimit. rewrite get_set_eq; cbn.
      split; [|done]. split; [done|]. eexists; split; [done|lia].
    + unfold limitedFrom, recordRateLimit. rewrite get_set_ne by done. eauto 6.
  - destruct (decide (q = p)) as [->|Hne].
    + unfold limitedFrom, recordError. rewrite get_set_eq; cbn. eauto 6.
    + unfold limitedFrom, recordError. rewrite get_set_ne by done. eauto 6.
  - destruct (decide (q = p)) as [->|Hne].
    + rewrite (isRateLimited_before ti p st r') by (done || lia).
      unfold limitedFrom; cbn. eauto 6.
    + unfold limitedFrom. rewrite isRateLimited_other by done. eauto 6.
  - destruct (filter_usable_limited env ti p r' [exa; firecrawl; cheerio] st)
      as [Hg _]; [done|done|lia|].
    unfold limitedFrom, getAvailableProviders, getAvailableProvidersInternal.
    rewrite Hg. eauto 6.
Qed.

Lemma runOps_limitedFrom env t0 p ops st :
  limitedFrom (t0 + RATE_LIMIT_COOLDOWN_MS) p st →
  Forall (fun top : Z * TrackerOp =>
            t0 ≤ top.1 < t0 + RATE_LIMIT_COOLDOWN_MS ∧ top.2 ≠ OpSuccess p) ops →
  limitedFrom (t0 + RATE_LIMIT_COOLDOWN_MS) p (runOps env ops st)
  ∧ (Forall (fun top : Z * TrackerOp => top.2 ≠ OpRateLimit p) ops →
     resetAt (rateLimit (get p (runOps env ops st)))
     = resetAt (rateLimit (get p st))).
Proof.
  intros Hinv Hops. revert st Hinv.
  induction Hops as [|top ops [Ht Hop] _ IH]; intros st Hinv; [done|].
  destruct (applyOp_limitedFrom env t0 p st top Hinv Ht Hop) as [Hinv' Hsame].
  destruct (IH _ Hinv') as [IH1 IH2].
  split; [exact IH1|].
  intros Hno. inversion Hno; subst.
  change (runOps env (top :: ops) st) with (runOps env ops (applyOp env st top)).
  rewrite IH2 by done. by apply Hsame.
Qed.

(** C8, as amended: after [recordRateLimit] marks [p] at [t0], and as long
    as no [recordSuccess] for [p] runs, [p] counts as limited and is left out
    of the available providers at every read before [t0 + cooldown]; the
    first read at or after its [resetAt] answers "not limited" and clears the
    flag and [resetAt]; and [resetAt] is still [t0 + cooldown] unless [p] was
    marked again. *)
Theorem rate_limit_round_trip (env : Env) (p : ScrapingProvider) (t0 : Z)
  (st : TrackerState) (ops : list (Z * TrackerOp)) :
  Forall (fun top : Z * TrackerOp =>
            t0 ≤ top.1 < t0 + RATE_LIMIT_COOLDOWN_MS ∧ top.2 ≠ OpSuccess p) ops →
  let st1 := runOps env ops (recordRateLimit t0 p st) in
  (∀ t, t < t0 + RATE_LIMIT_COOLDOWN_MS →
        isRateLimited t p st1 = (true, st1)
        ∧ p ∉ fst (getAvailableProviders env t st1))
  ∧ (∃ r, resetAt (rateLimit (get p st1)) = Some r
          ∧ t0 + RATE_LIMIT_COOLDOWN_MS ≤ r
          ∧ ∀ t, r ≤ t →
                 isRateLimited t p st1 = (false, clearLimit p st1)
                 ∧ isLimited (rateLimit (get p (clearLimit p st1))) = false
                 ∧ resetAt (rateLimit (get p (clearLimit p st1))) = None)
  ∧ (Forall (fun top : Z * TrackerOp => top.2 ≠ OpRateLimit p) ops →
     resetAt (rateLimit (get p st1)) = Some (t0 + RATE_LIMIT_COOLDOWN_MS)).
Proof.
  intros Hops st1.
  assert (limitedFrom (t0 + RATE_LIMIT_COOLDOWN_MS) p (recordRateLimit t0 p st))
    as Hinit.
  { unfold limitedFrom, recordRateLimit. rewrite get_set_eq; cbn.
    split; [done|]. eexists; split; [done|lia]. }
  destruct (runOps_limitedFrom env t0 p ops _ Hinit Hops)
    as [(Hl & r & Hr & Hle) Hsame].
  fold st1 in Hl, Hr, Hsame.
  split; [|split].
  - intros t Ht. split.
    + apply (isRateLimited_before t p st1 r); [done|done|lia].
    + apply (filter_usable_limited env t p r); [done|done|lia].
  - exists r. split; [done|]. split; [done|].
    intros t Ht. split.
    + by apply (isRateLimited_after t p st1 r).
    + unfold clearLimit. by rewrite get_set_eq.
  - intros Hno. rewrite Hsame by done.
    unfold recordRateLimit. by rewrite get_set_eq.
Qed.

Lemma rate_limit_round_trip_witness :
  let ops := [(1500, OpError exa); (2000, OpRead exa); (2500, OpSuccess firecrawl);
              (3000, OpList)] in
  let st1 := runOps envAllKeys ops (recordRateLimit 1000 exa createRateLimitState) in
  (isRateLimited 60999 exa st1).1 = true
  ∧ (exa ∉ fst (getAvailableProviders envAllKeys 60999 st1))
  ∧ resetAt (rateLimit (get exa st1)) = Some 61000.
Proof.
  intros ops st1.
  assert (Forall (fun top : Z * TrackerOp =>
                    1000 ≤ top.1 < 1000 + RATE_LIMIT_COOLDOWN_MS
                    ∧ top.2 ≠ OpSuccess exa) ops) as Hops.
  { unfold ops, RATE_LIMIT_COOLDOWN_MS.
    repeat (apply Forall_cons; split; [split; [(cbn; lia)|discriminate]|]).
    apply Forall_nil_2. }
  destruct (rate_limit_round_trip envAllKeys exa 1000 createRateLimitState ops Hops)
    as (Hbefore & _ & Hsame).
  destruct (Hbefore 60999) as [Hread Hlist]; [unfold RATE_LIMIT_COOLDOWN_MS; lia|].
  split; [|split].
  - fold st1 in Hread. by rewrite Hread.
  - exact Hlist.
  - apply Hsame. unfold ops.
    repeat (apply Forall_cons; split; [discriminate|]). apply Forall_nil_2.
Defined.

(** C8 as stated fails: a success recorded for the provider (a request that
    was in flight when the limit was recorded) makes it usable again well
    before [resetAt]. *)
Lemma rate_limit_cleared_before_reset :
  let st1 := recordRateLimit 1000 exa createRateLimitState in
  let st2 := recordSuccess 2000 exa st1 in
  resetAt (rateLimit (get exa st1)) = Some 61000
  ∧ resetAt (rateLimit (get exa st2)) = Some 61000
  ∧ isRateLimited 3000 exa st2 = (false, st2)
  ∧ exa ∈ fst (getAvailableProviders envAllKeys 3000 st2).
Proof.
  cbn zeta. split; [reflexivity|]. split; [reflexivity|]. split; [reflexivity|].
  vm_compute. apply list_elem_of_here.
Qed.

(** ** Provider selection *)

Lemma usable_fst_get env now p st st' :
  get p st' = get p st → (usable env now p st').1 = (usable env now p st).1.
Proof.
  intros Hg. unfold usable, isRateLimited. rewrite Hg.
  destruct (adapter_available env p); [|done].
  destruct (isLimited _); cbn; [|done].
  destruct (resetAt _) as [r|]; [|done].
  by destruct (r <=? now).
Qed.

Lemma usable_again env now p st :
  (usable env now p (usable env now p st).2).1 = (usable env now p st).1.
Proof.
  destruct (usable env now p st) as [b st1] eqn:Hu. cbn [fst snd].
  unfold usable in Hu. destruct (adapter_available env p) eqn:Ha.
  - unfold isRateLimited in Hu.
    destruct (isLimited (rateLimit (get p st))) eqn:Hl; cbn in Hu.
    + destruct (resetAt (rateLimit (get p st))) as [r|] eqn:Hr.
      * destruct (r <=? now) eqn:Hle; injection Hu as <- <-.
        -- unfold usable, isRateLimited, clearLimit.
           rewrite Ha, get_set_eq. done.
        -- unfold usable, isRateLimited. by rewrite Ha, Hl, Hr, Hle.
      * injection Hu as <- <-.
        unfold usable, isRateLimited. by rewrite Ha, Hl, Hr.
    + injection Hu as <- <-.
      unfold usable, isRateLimited. by rewrite Ha, Hl.
  - injection Hu as <- <-. unfold usable. by rewrite Ha.
Qed.

Lemma usable_stable env now p q st :
  (usable env now p (usable env now q st).2).1 = (usable env now p st).1.
Proof.
  destruct (decide (q = p)) as [->|Hne]; [apply usable_again|].
  apply usable_fst_get. by apply usable_other.
Qed.

Lemma filter_usable_elem env now p ps st :
  p ∈ (filter_usable env now ps st).1 → (usable env now p st).1 = true.
Proof.
  revert st. induction ps as [|q ps IH]; intros st; cbn.
  { intros Hin. by apply elem_of_nil in Hin. }
  pose proof (usable_stable env now p q st) as Hst.
  destruct (usable env now q st) as [b st1] eqn:Hu; cbn in Hst.
  specialize (IH st1).
  destruct (filter_usable env now ps st1) as [l st2]; cbn in *.
  destruct b.
  - intros [->|Hin]%elem_of_cons.
    + by rewrite Hu.
    + rewrite <- Hst. by apply IH.
  - intros Hin. rewrite <- Hst. by apply IH.
Qed.

Lemma includes_false l p : p ∉ l → includes l p = false.
Proof. intros Hn. unfold includes. by apply bool_decide_eq_false. Qed.

(** With a preference that is not usable and fallback off, nothing is chosen. *)
Lemma selectProvider_unusable_preferred env now p html_wanted st :
  (usable env now p st).1 = false →
  (selectProvider env now (Some p) false html_wanted st).1 = None.
Proof.
  intros Hu. unfold selectProvider, getAvailableProvidersInternal.
  pose proof (filter_usable_elem env now p [exa; firecrawl; cheerio] st) as Hel.
  destruct (filter_usable env now [exa; firecrawl; cheerio] st) as [avail st'].
  cbn in *.
  assert (p ∉ avail) as Hn.
  { intros Hin. apply Hel in Hin. congruence. }
  rewrite (includes_false _ _ Hn).
  destruct (bool_decide (avail = [])); [done|].
  rewrite andb_false_r. done.
Qed.

(** ** Fallback orchestrator *)

Section OrchestratorFacts.
Context {O R : Type}.
Variable what : string.
Variable base_of : O -> ScrapeOptions.
Variable with_defaults : O -> O.
Variable env : Env.
Variable call : ScrapingProvider -> string -> O -> Z -> (JsError + R) * Z.

Lemma entry_unusable_preferred u options w p :
  opt_provider (base_of (with_defaults options)) = Some p →
  opt_fallback (base_of (with_defaults options)) = Some false →
  (usable env (clock w) p (tracker w)).1 = false →
  ∃ st', entry what base_of with_defaults env call u options w
         = (inl (providerUnavailableError (Some p)), mkWorld st' (clock w) (calls w)).
Proof.
  intros Hp Hf Hu. unfold entry. rewrite Hp, Hf. cbn [not_false].
  pose proof (selectProvider_unusable_preferred env (clock w) p
                (truthy_bool (opt_html (base_of (with_defaults options))))
                (tracker w) Hu) as Hsel.
  destruct (selectProvider _ _ _ _ _ _) as [sel st1]. cbn in Hsel. subst sel.
  exists st1. cbn. by rewrite !andb_false_r.
Qed.

(** What a non-rate-limit failure of the selected adapter leaves behind. *)
Lemma tryWithFallback_plain_error u o p w e t' :
  call p u o (clock w) = (inl e, t') →
  isRateLimit e = false →
  tryWithFallback base_of env call u o p w
  = (inl e, mkWorld (recordError p (tracker w)) t' (calls w ++ [p])).
Proof.
  intros Hc He. unfold tryWithFallback, invoke. rewrite Hc, He. done.
Qed.

(** The loop over the alternatives either runs to its end or returns what an
    alternate it invoked returned; it invokes alternates only. *)
Lemma tryAlternatives_outcome alts u o w res w' :
  tryAlternatives env call alts u o w = (res, w') →
  ∃ attempted,
    calls w' = calls w ++ attempted
    ∧ attempted ⊆ alts
    ∧ (res = None
       ∨ ∃ alt t r, alt ∈ attempted ∧ (call alt u o t).1 = inr r ∧ res = Some r).
Proof.
  revert w. induction alts as [|alt rest IH]; intros w; cbn.
  { intros [= <- <-]. exists []. rewrite app_nil_r. split; [done|].
    split; [done|]. by left. }
  destruct (usable env (clock w) alt (tracker w)) as [ok st1].
  destruct ok.
  - unfold invoke. cbn.
    destruct (call alt u o (clock w)) as [out t2] eqn:Hc.
    destruct out as [fallbackError|r].
    + intros Hrun. apply IH in Hrun as (att & Hcalls & Hsub & Hres).
      cbn in Hcalls. exists (alt :: att).
      split; [by rewrite Hcalls, <- app_assoc|].
      split.
      { intros x [->|Hx]%elem_of_cons; [apply list_elem_of_here|].
        apply list_elem_of_further. by apply Hsub. }
      destruct Hres as [->|(a & t & r & Ha & Hr & ->)]; [by left|].
      right. exists a, t, r. split; [by apply list_elem_of_further|done].
    + intros [= <- <-]. cbn. exists [alt].
      split; [done|]. split.
      { intros x [->|Hx]%elem_of_cons; [apply list_elem_of_here|].
        by apply elem_of_nil in Hx. }
      right. exists alt, (clock w), r. rewrite Hc.
      split; [apply list_elem_of_here|done].
  - intros Hrun. apply IH in Hrun as (att & Hcalls & Hsub & Hres).
    cbn in Hcalls. exists att. split; [done|]. split; [|done].
    intros x Hx. apply list_elem_of_further. by apply Hsub.
Qed.

(** The selected adapter is the first one invoked, at the clock of entry. *)
Lemma tryWithFallback_outcome u o p w res w' :
  tryWithFallback base_of env call u o p w = (res, w') →
  ∃ attempted,
    calls w' = calls w ++ p :: attempted
    ∧ match (call p u o (clock w)).1 with
      | inr r => res = inr r ∧ attempted = []
      | inl e =>
          res = inl e
          ∨ (isRateLimit e = true
             ∧ ∃ alt t r, alt ∈ attempted ∧ (call alt u o t).1 = inr r
                          ∧ res = inr r)
      end.
Proof.
  unfold tryWithFallback, invoke.
  destruct (call p u o (clock w)) as [out t1]. cbn [fst].
  destruct out as [e|r].
  - destruct (isRateLimit e) eqn:He.
    + destruct (not_false _).
      * destruct (tryAlternatives _ _ _ _ _ _) as [alt_res w3] eqn:Hrun.
        apply tryAlternatives_outcome in Hrun as (att & Hcalls & _ & Hres).
        cbn in Hcalls.
        destruct alt_res as [r|]; intros [= <- <-].
        -- exists att. split; [by rewrite Hcalls, <- app_assoc|].
           destruct Hres as [?|(a & t & r' & Ha & Hr & [= ->])]; [done|].
           right. split; [done|]. by exists a, t, r'.
        -- exists att. split; [by rewrite Hcalls, <- app_assoc|]. by left.
      * intros [= <- <-]. exists []. split; [done|]. by left.
    + intros [= <- <-]. exists []. split; [done|]. by left.
  - intros [= <- <-]. exists []. done.
Qed.

(** Either the entry point throws before any adapter is invoked, or it hands
    over to [tryWithFallback] with the defaulted options at the clock of
    entry. *)
Lemma entry_outcome u options w res w' :
  entry what base_of with_defaults env call u options w = (res, w') →
  (calls w' = calls w ∧ ∃ e, res = inl e)
  ∨ ∃ p st1,
      tryWithFallback base_of env call u (with_defaults options) p
        (mkWorld st1 (clock w) (calls w)) = (res, w').
Proof.
  unfold entry.
  destruct (selectProvider _ _ _ _ _ _) as [sel st1].
  destruct sel as [p|].
  - intros Hrun. right. by exists p, st1.
  - destruct (_ && _).
    + intros [= <- <-]. left. eauto.
    + destruct (not_false _).
      * intros Hrun. right. eauto.
      * intros [= <- <-]. left. eauto.
Qed.

Lemma entry_rate_limit_exhausted u options w res w' p attempted e :
  entry what base_of with_defaults env call u options w = (res, w') →
  calls w' = calls w ++ p :: attempted →
  (call p u (with_defaults options) (clock w)).1 = inl e →
  isRateLimit e = true →
  (∀ alt t, alt ∈ attempted →
            ∃ e', (call alt u (with_defaults options) t).1 = inl e') →
  res = inl e.
Proof.
  intros Hrun Hcalls Hp He Hfail.
  apply entry_outcome in Hrun as [[Hsame _]|(p' & st1 & Hrun)].
  { rewrite Hsame in Hcalls.
    apply (f_equal length) in Hcalls. rewrite length_app in Hcalls.
    cbn in Hcalls. lia. }
  apply tryWithFallback_outcome in Hrun as (att & Hcalls' & Hout).
  cbn [calls clock] in Hcalls', Hout.
  rewrite Hcalls' in Hcalls. apply app_inv_head in Hcalls.
  injection Hcalls as -> ->.
  rewrite Hp in Hout.
  destruct Hout as [?|(_ & alt & t & r & Ha & Hr & _)]; [done|].
  destruct (Hfail alt t Ha) as [e' He']. congruence.
Qed.
End OrchestratorFacts.

(** C5: with a preferred provider that is not usable and [fallback: false],
    [scrape] and [crawl] throw the provider-unavailable error, and the list of
    invoked adapters is what it was: no adapter is called. *)
Theorem unusable_preferred_throws `{DomLibs} `{Remote} (env : Env) (u : string)
  (w : World) (p : ScrapingProvider) :
  (usable env (clock w) p (tracker w)).1 = false →
  (∀ o, opt_provider o = Some p → opt_fallback o = Some false →
        ∃ st', scrape env u o w
               = (inl (providerUnavailableError (Some p)),
                  mkWorld st' (clock w) (calls w)))
  ∧ (∀ o, opt_provider (opt_base o) = Some p →
          opt_fallback (opt_base o) = Some false →
          ∃ st', crawl env u o w
                 = (inl (providerUnavailableError (Some p)),
                    mkWorld st' (clock w) (calls w))).
Proof.
  intros Hu. split; intros o Hp Hf.
  - apply entry_unusable_preferred; [| |done].
    + cbn. exact Hp.
    + cbn. by rewrite Hf.
  - apply entry_unusable_preferred; [| |done].
    + cbn. exact Hp.
    + cbn. by rewrite Hf.
Qed.

Lemma unusable_preferred_throws_witness :
  let o := mkScrapeOptions (Some exa) (Some false) None None None None None in
  (usable envNoKeys 1000 exa createRateLimitState).1 = false
  ∧ ∃ st', @scrape sampleDom remoteAllDown envNoKeys "https://example.com" o world0
           = (inl (providerUnavailableError (Some exa)), mkWorld st' 1000 []).
Proof.
  intros o. split; [reflexivity|].
  destruct (@unusable_preferred_throws sampleDom remoteAllDown envNoKeys
              "https://example.com" world0 exa eq_refl) as [Hs _].
  exact (Hs o eq_refl eq_refl).
Defined.

(** C6: when the selected adapter fails with an error that is not a
    rate-limit error, [tryWithFallback] (of either file) re-raises that error,
    has invoked that adapter and no other, and has recorded one plain error:
    the provider's error count goes up by one and nothing else changes,
    whatever the fallback flag. *)
Theorem plain_error_reraised {O R : Type} (base_of : O -> ScrapeOptions)
  (env : Env) (call : ScrapingProvider -> string -> O -> Z -> (JsError + R) * Z)
  (u : string) (o : O) (p : ScrapingProvider) (w : World) (e : JsError) (t' : Z) :
  call p u o (clock w) = (inl e, t') →
  isRateLimit e = false →
  let res := tryWithFallback base_of env call u o p w in
  res.1 = inl e
  ∧ calls res.2 = calls w ++ [p]
  ∧ tracker res.2 = recordError p (tracker w)
  ∧ errors (rateLimit (get p (tracker res.2)))
    = S (errors (rateLimit (get p (tracker w))))
  ∧ isLimited (rateLimit (get p (tracker res.2)))
    = isLimited (rateLimit (get p (tracker w)))
  ∧ resetAt (rateLimit (get p (tracker res.2)))
    = resetAt (rateLimit (get p (tracker w)))
  ∧ lastSuccess (get p (tracker res.2)) = lastSuccess (get p (tracker w))
  ∧ available (get p (tracker res.2)) = available (get p (tracker w))
  ∧ ∀ q, q ≠ p → get q (tracker res.2) = get q (tracker w).
Proof.
  intros Hc He res. subst res.
  rewrite (tryWithFallback_plain_error base_of env call u o p w e t' Hc He).
  cbn [fst snd calls tracker]. unfold recordError. rewrite get_set_eq. cbn.
  repeat split. intros q Hq. by rewrite get_set_ne.
Qed.

Lemma plain_error_reraised_witness :
  let call := @scrapeAdapter sampleDom remoteAllDown envAllKeys in
  let res := tryWithFallback id envAllKeys call "https://example.com"
               noScrapeOptions cheerio world0 in
  res.1 = inl (plainError "connect ECONNREFUSED")
  ∧ calls res.2 = [cheerio]
  ∧ errors (rateLimit (get cheerio (tracker res.2))) = 1%nat.
Proof.
  intros call res.
  destruct (plain_error_reraised id envAllKeys call "https://example.com"
              noScrapeOptions cheerio world0
              (plainError "connect ECONNREFUSED") 1001 eq_refl eq_refl)
    as (Hres & Hcalls & _ & Herr & _).
  split; [exact Hres|]. split; [exact Hcalls|exact Herr].
Defined.

(** C7: when the provider [scrape] selected fails with a rate-limit error and
    every alternate that was attempted fails too (the others were skipped as
    unusable), [scrape] throws the selected provider's own error, which
    carries [isRateLimit] and is not the no-provider-available error. *)
Theorem rate_limit_exhausted_reraised `{DomLibs} `{Remote} (env : Env)
  (u : string) (options : ScrapeOptions) (w : World)
  (res : JsError + ScrapeResult) (w' : World)
  (p : ScrapingProvider) (attempted : list ScrapingProvider) (e : JsError) :
  scrape env u options w = (res, w') →
  calls w' = calls w ++ p :: attempted →
  (scrapeAdapter env p u (scrapeDefaults options) (clock w)).1 = inl e →
  isRateLimit e = true →
  (∀ alt t, alt ∈ attempted →
            ∃ e', (scrapeAdapter env alt u (scrapeDefaults options) t).1 = inl e') →
  res = inl e ∧ e ≠ noProvidersError "scraping".
Proof.
  intros Hrun Hcalls Hp He Hfail. split.
  - by apply (entry_rate_limit_exhausted "scraping" id scrapeDefaults env
                (scrapeAdapter env) u options w res w' p attempted e).
  - intros ->. discriminate He.
Qed.

Lemma rate_limit_exhausted_reraised_witness :
  let e := mkJsError "Exa rate limit: 429 Too Many Requests" true false in
  (@scrape sampleDom remoteAllDown envAllKeys "https://example.com"
     (mkScrapeOptions (Some exa) None None None None None None) world0).1
  = inl e
  ∧ e ≠ noProvidersError "scraping".
Proof.
  intros e.
  destruct (@scrape sampleDom remoteAllDown envAllKeys "https://example.com"
              (mkScrapeOptions (Some exa) None None None None None None) world0)
    as [res w'] eqn:Hrun.
  apply (@rate_limit_exhausted_reraised sampleDom remoteAllDown envAllKeys
           "https://example.com"
           (mkScrapeOptions (Some exa) None None None None None None)
           world0 res w' exa [firecrawl; cheerio] e Hrun).
  - vm_compute in Hrun. by injection Hrun as <- <-.
  - reflexivity.
  - reflexivity.
  - intros alt t [->|[->|Hin%elem_of_nil]%elem_of_cons]%elem_of_cons; [| |done].
    + eexists. reflexivity.
    + eexists. reflexivity.
Defined.

(** ** Truncation *)

Lemma substring_length_le (n : nat) (s : string) :
  (String.length (String.substring 0 n s) ≤ n)%nat.
Proof.
  revert s. induction n as [|n IH]; intros [|c s]; cbn; try lia.
  specialize (IH s). lia.
Qed.

Lemma truncate_bound (N : Z) (s : string) :
  0 < N → str_length (truncate (Some N) s) ≤ N.
Proof.
  intros HN. unfold truncate.
  destruct (Z.eqb_spec N 0); [lia|]. cbn.
  destruct (Z.ltb_spec N (str_length s)); [|done].
  unfold substring0, str_length.
  pose proof (substring_length_le (Z.to_nat N) s). lia.
Qed.



(** The text the Exa crawl normaliser returns. *)
Lemma normalizeExa_text `{DomLibs} result u o d :
  text (normalizeExaResultToCrawl result u o d)
  = let exaText := or_str (exa_text result) EmptyString in
    truncate (opt_maxChars (opt_base o))
      (if str_includes exaText "<" && str_includes exaText ">"
       then or_str (bodyTextContent exaText) EmptyString
       else exaText).
Proof. by destruct result. Qed.

Lemma normalizeExa_markdown_bound `{DomLibs} result u o d N m :
  opt_maxChars (opt_base o) = Some N → 0 < N →
  markdown (normalizeExaResultToCrawl result u o d) = Some m →
  str_length m ≤ N.
Proof.
  intros HN Hpos. destruct result; cbn. rewrite HN.
  destruct (not_false _); [|done].
  match goal with
  | |- context [match ?x with Some _ => _ | None => _ end] =>
      destruct x as [s|]; [|done]
  end.
  destruct (String.eqb_spec s EmptyString) as [->|_]; intros [= <-].
  - unfold str_length. cbn. lia.
  - by apply truncate_bound.
Qed.

(** The cheerio normaliser cuts [text] and [markdown] to [maxChars]. *)
Lemma cheerioNormal_maxChars `{DomLibs} d page u o r N :
  cheerioNormal d page u o = inr r →
  opt_maxChars o = Some N → 0 < N →
  str_length (text r) ≤ N
  ∧ ∀ m, markdown r = Some m → str_length m ≤ N.
Proof.
  unfold cheerioNormal. intros Hr HN Hpos.
  destruct (readability page u) as [article|]; [|done].
  injection Hr as <-. cbn. rewrite HN. split; [by apply truncate_bound|].
  intros m. destruct (not_false (opt_markdown o)); [|done].
  destruct (String.eqb_spec (turndown (sanitize (or_str (art_content article) page)))
              EmptyString) as [Heq|_].
  - intros [= <-]. rewrite Heq. unfold str_length. cbn. lia.
  - intros [= <-]. by apply truncate_bound.
Qed.

(** C1 at the failing input: with [maxChars: 5] and the firecrawl provider,
    [scrape] and [crawl] return the ten characters Firecrawl delivered, in
    [text] and in [markdown]; the firecrawl adapter never reads [maxChars]. *)
Theorem firecrawl_ignores_maxChars :
  let o := mkScrapeOptions (Some firecrawl) None None None (Some 5) None None in
  let co := mkCrawlOptions o None None None None None in
  (∃ r w', @scrape sampleDom remoteFirecrawlTen envAllKeys "https://example.com"
             o world0 = (inr r, w')
           ∧ provider r = firecrawl
           ∧ str_length (text r) = 10
           ∧ str_length <$> markdown r = Some 10)
  ∧ (∃ r w', @crawl sampleDom remoteFirecrawlTen envAllKeys "https://example.com"
               co world0 = (inr r, w')
             ∧ provider r = firecrawl
             ∧ str_length (text r) = 10
             ∧ str_length <$> markdown r = Some 10).
Proof.
  cbn zeta. split; eexists _, _; (split; [vm_compute; reflexivity|]); by cbn.
Qed.

(** ** The text of a result *)





(** ** Result trees *)

(** Induction over a result tree, with the hypothesis for every subpage. *)
Lemma CrawlResult_ind' (P : CrawlResult → Prop) :
  (∀ r, (∀ l, subpages r = Some l → Forall P l) → P r) →
  ∀ r, P r.
Proof.
  intros node.
  assert (∀ r, P r ∧ ∀ l, subpages r = Some l → Forall P l) as Hall;
    [|intros r; apply Hall].
  fix IH 1. intros [a b c d e f subs dp].
  assert (∀ l, subs = Some l → Forall P l) as Hsubs.
  { destruct subs as [l0|]; [|done].
    assert (Forall P l0) as Hl0.
    { induction l0 as [|x l0 IHl]; constructor; [apply IH|exact IHl]. }
    by intros l [= <-]. }
  split; [by apply node|exact Hsubs].
Qed.

Lemma ExaResult_ind' (P : ExaResult → Prop) :
  (∀ r, (∀ l, exa_subpages r = Some l → Forall P l) → P r) →
  ∀ r, P r.
Proof.
  intros node.
  assert (∀ r, P r ∧ ∀ l, exa_subpages r = Some l → Forall P l) as Hall;
    [|intros r; apply Hall].
  fix IH 1. intros [a b c d e f g h i subs rest].
  assert (∀ l, subs = Some l → Forall P l) as Hsubs.
  { destruct subs as [l0|]; [|done].
    assert (Forall P l0) as Hl0.
    { induction l0 as [|x l0 IHl]; constructor; [apply IH|exact IHl]. }
    by intros l [= <-]. }
  split; [by apply node|exact Hsubs].
Qed.

Lemma nodes_unfold r :
  nodes r = r :: match subpages r with
                 | Some l => mjoin (nodes <$> l)
                 | None => []
                 end.
Proof. by destruct r. Qed.

(** Node by node: each node has a depth satisfying [P], and each entry of its
    [subpages] has that depth plus one. *)
Lemma TreeAt_nodes P d r :
  TreeAt P d r →
  ∀ n, n ∈ nodes r →
       ∃ dn, depth n = Some dn ∧ P dn
             ∧ ∀ l c, subpages n = Some l → c ∈ l → depth c = Some (dn + 1).
Proof.
  revert d. induction r as [r IH] using CrawlResult_ind'.
  intros d Ht n Hn. inversion Ht as [d' r' Hd HP Hsub]; subst.
  rewrite nodes_unfold in Hn. apply elem_of_cons in Hn as [->|Hn].
  - exists d. split; [done|]. split; [done|].
    intros l c Hl Hc. specialize (Hsub l Hl).
    rewrite Forall_forall in Hsub. specialize (Hsub c Hc).
    by inversion Hsub.
  - destruct (subpages r) as [l|] eqn:Hl; [|by apply elem_of_nil in Hn].
    apply list_elem_of_join in Hn as (ns & Hin & Hns).
    apply list_elem_of_fmap in Hns as (c & -> & Hc).
    specialize (IH l eq_refl). rewrite Forall_forall in IH.
    specialize (Hsub l eq_refl). rewrite Forall_forall in Hsub.
    by apply (IH c Hc (d + 1)); [apply Hsub|].
Qed.

Lemma TreeAt_weaken (P Q : Z → Prop) d r :
  (∀ x, P x → Q x) → TreeAt P d r → TreeAt Q d r.
Proof.
  intros HPQ. revert d. induction r as [r IH] using CrawlResult_ind'.
  intros d Ht. inversion Ht as [d' r' Hd HP Hsub]; subst.
  constructor; [done|by apply HPQ|].
  intros l Hl. specialize (IH l Hl). specialize (Hsub l Hl).
  rewrite Forall_forall in *. intros c Hc. by apply IH, Hsub.
Qed.

(** ** The cheerio crawl *)

Lemma cheerioNormal_shape `{DomLibs} d page u o r :
  cheerioNormal d page u o = inr r →
  depth r = d ∧ subpages r = None ∧ provider r = cheerio.
Proof.
  unfold cheerioNormal. destruct (readability page u); [|done].
  by intros [= <-].
Qed.


Lemma pMap_total {A B S} (mapper : A → S → option (B * S)) items s :
  (∀ x s, x ∈ items → is_Some (mapper x s)) → is_Some (pMap mapper items s).
Proof.
  revert s. induction items as [|x items IH]; intros s Hm; cbn; [done|].
  destruct (Hm x s) as [[y s1] ->]; [apply list_elem_of_here|]. cbn.
  destruct (IH s1) as [[ys s2] ->].
  { intros x' s' Hx'. apply Hm. by apply list_elem_of_further. }
  done.
Qed.

Lemma pMap_Forall {A B S} (Q : B → Prop) (mapper : A → S → option (B * S))
  items s ys s' :
  (∀ x s1 y s2, mapper x s1 = Some (y, s2) → Q y) →
  pMap mapper items s = Some (ys, s') → Forall Q ys.
Proof.
  intros Hm. revert s ys. induction items as [|x items IH]; intros s ys; cbn.
  { intros [= <- <-]. constructor. }
  destruct (mapper x s) as [[y s1]|] eqn:Hx; [|done]. cbn.
  destruct (pMap mapper items s1) as [[ys1 s2]|] eqn:Hrest; [|done]. cbn.
  intros [= <- <-]. constructor; [by eapply Hm|by eapply IH].
Qed.

Lemma tryCatchNull_Some {A E S} (f : S → option ((E + A) * S)) s a s' :
  tryCatchNull f s = Some (Some a, s') → f s = Some (inr a, s').
Proof.
  unfold tryCatchNull. destruct (f s) as [[[e|a'] s1]|]; cbn; [done| |done].
  by intros [= <- <-].
Qed.

(** What the successful children of a sequential map satisfy. *)
Lemma pMap_tryCatchNull_Forall {A E S} (Q : A → Prop)
  (f : string → S → option ((E + A) * S)) items s outs s' :
  (∀ x s1 a s2, f x s1 = Some (inr a, s2) → Q a) →
  pMap (fun x => tryCatchNull (f x)) items s = Some (outs, s') →
  Forall Q (omap id outs).
Proof.
  intros Hf Hmap.
  apply (pMap_Forall (fun o => ∀ a, o = Some a → Q a)) in Hmap.
  - induction Hmap as [|o outs Ho _ IH]; [constructor|].
    destruct o as [a|]; cbn; [|done]. constructor; [by apply Ho|done].
  - intros x s1 y s2 Hy a ->. apply tryCatchNull_Some in Hy. by eapply Hf.
Qed.

Section CheerioCrawlFacts.
Context `{DomLibs} `{Remote}.
Variable t : Z.
Variable options : CrawlOptions.

(** A successful call, taken apart. *)
Lemma crawlRecursive_success fuel currentUrl d visitedUrls r visited' :
  crawlRecursive t options (S fuel) currentUrl d visitedUrls
  = Some (inr r, visited') →
  d ≤ maxDepth_of options
  ∧ (currentUrl ∉ visitedUrls)
  ∧ ∃ response result outcomes,
      fetch t currentUrl = inr response
      ∧ normalizeCheerioResultToCrawl (resp_text response) currentUrl
          (opt_base options) d = inr result
      ∧ let links := expansion options currentUrl d visitedUrls (resp_text response) in
        pMap (fun link =>
                tryCatchNull (crawlRecursive t options fuel link (d + 1)))
          links ({[currentUrl]} ∪ visitedUrls) = Some (outcomes, visited')
        ∧ r = if bool_decide (links = []) then result
              else set_subpages (Some (omap id outcomes)) result.
Proof.
  cbn [crawlRecursive]. unfold expansion.
  destruct (bool_decide (currentUrl ∈ visitedUrls)) eqn:Hvis; cbn [orb]; [done|].
  destruct (Z.ltb_spec (maxDepth_of options) d); [done|].
  apply bool_decide_eq_false in Hvis.
  destruct (parseURL currentUrl None); [|done].
  destruct (fetch t currentUrl) as [e|response]; [done|].
  destruct (resp_ok response); [|done]. cbn [negb].
  destruct (normalizeCheerioResultToCrawl _ _ _ _) as [e|result] eqn:Hnorm; [done|].
  intros Hrun. split; [lia|]. split; [done|].
  exists response, result.
  destruct ((d <? maxDepth_of options) && (0 <? maxSubpages_or_0 options)).
  - destruct (extractLinks _ _ _) as [e|links]; [done|].
    destruct (bool_decide (linksToCrawlOf options links _ = [])) eqn:Hnil.
    + injection Hrun as <- <-. exists [].
      apply bool_decide_eq_true in Hnil. rewrite Hnil. cbn zeta.
      by repeat split.
    + destruct (pMap _ _ _) as [[outcomes v']|] eqn:Hmap; [|done].
      cbn in Hrun. injection Hrun as <- <-. exists outcomes.
      by repeat split.
  - injection Hrun as <- <-. exists []. cbn zeta.
    by repeat split.
Qed.

(** Enough fuel: one unit for the call and one per level left below it. *)
Lemma crawlRecursive_total fuel currentUrl d visitedUrls :
  (Z.to_nat (maxDepth_of options - d) < fuel)%nat →
  is_Some (crawlRecursive t options fuel currentUrl d visitedUrls).
Proof.
  revert currentUrl d visitedUrls.
  induction fuel as [|fuel IH]; intros currentUrl d visitedUrls Hfuel; [lia|].
  cbn [crawlRecursive].
  destruct (_ || _); [done|].
  destruct (parseURL currentUrl None); [|done].
  destruct (fetch t currentUrl) as [e|response]; [done|].
  destruct (negb _); [done|].
  destruct (normalizeCheerioResultToCrawl _ _ _ _) as [e|result]; [done|].
  destruct (Z.ltb_spec d (maxDepth_of options)); [|done].
  destruct (0 <? maxSubpages_or_0 options); [|done]. cbn [andb].
  destruct (extractLinks _ _ _) as [e|links]; [done|].
  destruct (bool_decide _); [done|].
  destruct (pMap_total
              (fun link => tryCatchNull (crawlRecursive t options fuel link (d + 1)))
              (linksToCrawlOf options links ({[currentUrl]} ∪ visitedUrls))
              ({[currentUrl]} ∪ visitedUrls)) as [[outs v'] ->]; [|done].
  intros link v _. unfold tryCatchNull.
  destruct (IH link (d + 1) v) as [[r v2] ->]; [lia|done].
Qed.

(** [cheerioAdapter.crawl] never falls into the out-of-fuel branch. *)
Lemma cheerio_crawl_run u :
  ∃ visited', crawlRecursive t options (crawlFuel options) u 0 ∅
              = Some (cheerio_crawl t options u, visited').
Proof.
  unfold cheerio_crawl.
  destruct (crawlRecursive_total (crawlFuel options) u 0 ∅) as [[r v'] Hrun].
  { unfold crawlFuel. rewrite Z.sub_0_r. lia. }
  rewrite Hrun. by exists v'.
Qed.

(** Every tree the recursive crawl returns from depth [d] is rooted at [d],
    puts subpages one below their parent, and stays within [maxDepth]. *)
Lemma crawlRecursive_tree fuel currentUrl d visitedUrls r visited' :
  crawlRecursive t options fuel currentUrl d visitedUrls = Some (inr r, visited') →
  TreeAt (fun x => x ≤ maxDepth_of options) d r.
Proof.
  revert currentUrl d visitedUrls r visited'.
  induction fuel as [|fuel IH]; intros currentUrl d visitedUrls r visited'; [done|].
  intros (Hd & _ & response & result & outcomes & _ & Hnorm & Hmap & ->)
    %crawlRecursive_success.
  apply cheerioNormal_shape in Hnorm as (Hdepth & Hsubs & _).
  destruct (bool_decide _).
  - constructor; [done|done|]. by rewrite Hsubs.
  - constructor; cbn.
    + exact Hdepth.
    + exact Hd.
    + intros l Hl. injection Hl as <-.
      eapply pMap_tryCatchNull_Forall; [|exact Hmap].
      intros link v1 c v2 Hc. exact (IH _ _ _ _ _ Hc).
Qed.
End CheerioCrawlFacts.

(** ** Crawl adapters *)

Lemma slice0_subseteq {A} (n : Z) (l : list A) : slice0 n l ⊆ l.
Proof. unfold slice0. destruct (n <? 0); apply subseteq_take. Qed.

Lemma slice0_zero {A} (l : list A) : slice0 0 l = [].
Proof. done. Qed.

Section CrawlAdapterFacts.
Context `{DomLibs} `{Remote}.
Variable env : Env.

Lemma normalizeExa_depth result u o d :
  depth (normalizeExaResultToCrawl result u o d) = Some d.
Proof. by destruct result. Qed.

Lemma normalizeExa_subpages result u o d :
  subpages (normalizeExaResultToCrawl result u o d)
  = let subs :=
      match exa_subpages result with
      | Some l =>
          slice0 (maxSubpages_or_0 o)
            ((fun subpage =>
                normalizeExaResultToCrawl subpage (or_str (exa_url subpage) u)
                  o (d + 1)) <$> l)
      | None => []
      end in
    if bool_decide (subs = []) then None else Some subs.
Proof. by destruct result. Qed.

(** The Exa normaliser puts every subpage one level below its parent. *)
Lemma normalizeExa_tree result u o d :
  TreeAt (fun _ => True) d (normalizeExaResultToCrawl result u o d).
Proof.
  revert u d. induction result as [result IH] using ExaResult_ind'.
  intros u d. constructor; [apply normalizeExa_depth|done|].
  rewrite normalizeExa_subpages. cbn zeta.
  destruct (exa_subpages result) as [l|] eqn:Hl; [|done].
  case_bool_decide; [done|]. intros l' [= <-].
  apply Forall_forall. intros c Hc.
  apply slice0_subseteq in Hc.
  apply list_elem_of_fmap in Hc as (sp & -> & Hsp).
  specialize (IH l eq_refl). rewrite Forall_forall in IH. by apply IH.
Qed.

(** The Exa crawl normaliser cuts [text] and [markdown] of every node to
    [maxChars]. *)
Lemma normalizeExa_maxChars result u o d N :
  opt_maxChars (opt_base o) = Some N → 0 < N →
  ∀ n, n ∈ nodes (normalizeExaResultToCrawl result u o d) →
       str_length (text n) ≤ N
       ∧ ∀ m, markdown n = Some m → str_length m ≤ N.
Proof.
  intros HN Hpos. revert u d.
  induction result as [result IH] using ExaResult_ind'.
  intros u d n. rewrite nodes_unfold, normalizeExa_subpages. cbn zeta.
  intros [->|Hn]%elem_of_cons.
  - split.
    + rewrite normalizeExa_text. cbn zeta. rewrite HN. by apply truncate_bound.
    + intros m. by apply normalizeExa_markdown_bound.
  - destruct (exa_subpages result) as [l|] eqn:Hl;
      [|by apply elem_of_nil in Hn].
    case_bool_decide; [by apply elem_of_nil in Hn|].
    apply list_elem_of_join in Hn as (ns & Hin & Hns).
    apply list_elem_of_fmap in Hns as (c & -> & Hc).
    apply slice0_subseteq in Hc.
    apply list_elem_of_fmap in Hc as (sp & -> & Hsp).
    specialize (IH l eq_refl). rewrite Forall_forall in IH.
    exact (IH sp Hsp _ _ n Hin).
Qed.

Lemma exaCatch_inr {A} (x : JsError + A) (a : A) :
  exaCatch x = inr a → x = inr a.
Proof.
  unfold exaCatch. destruct x as [e|a']; [|done].
  by destruct (isExaRateLimitError e).
Qed.

Lemma firecrawlCatch_inr {A} (x : JsError + A) (a : A) :
  firecrawlCatch x = inr a → x = inr a.
Proof.
  unfold firecrawlCatch. destruct x as [e|a']; [|done].
  by destruct (isFirecrawlRateLimitError e).
Qed.

(** A successful [exaAdapter.crawl] is the normalised first result. *)
Lemma exa_crawl_success t u o r :
  exa_crawl env t u o = inr r →
  ∃ r0, r = normalizeExaResultToCrawl r0 u o 0.
Proof.
  unfold exa_crawl. destruct (negb _); [done|].
  intros Hr%exaCatch_inr.
  destruct (getContents _ _ _) as [e|response]; [done|].
  destruct (exa_results response) as [[|r0 rest]|]; [done| |done].
  injection Hr as <-. by exists r0.
Qed.

(** A successful [cheerioAdapter.crawl] is a successful recursive call on the
    root, from depth 0 and an empty visited set. *)
Lemma cheerio_crawl_success t o u r :
  cheerio_crawl t o u = inr r →
  ∃ visited', crawlRecursive t o (crawlFuel o) u 0 ∅ = Some (inr r, visited').
Proof.
  intros Hr. destruct (cheerio_crawl_run t o u) as [v' Hrun].
  rewrite Hr in Hrun. by exists v'.
Qed.

(** Without a subpage budget the cheerio crawl returns the bare root. *)
Lemma cheerio_crawl_no_budget t o u r :
  maxSubpages_or_0 o ≤ 0 →
  cheerio_crawl t o u = inr r →
  depth r = Some 0 ∧ subpages r = None.
Proof.
  intros Hmax [v' Hrun]%cheerio_crawl_success.
  unfold crawlFuel in Hrun.
  apply crawlRecursive_success
    in Hrun as (_ & _ & response & result & outcomes & _ & Hnorm & Hmap & ->).
  apply cheerioNormal_shape in Hnorm as (Hdepth & Hsubs & _).
  unfold expansion.
  destruct (Z.ltb_spec 0 (maxSubpages_or_0 o)); [lia|].
  rewrite andb_false_r. by rewrite bool_decide_eq_true_2.
Qed.

Lemma cheerio_crawlBatch_results t urls o r :
  r ∈ results (cheerio_crawlBatch t urls o) →
  ∃ u, u ∈ urls ∧ cheerio_crawl t o u = inr r.
Proof.
  unfold cheerio_crawlBatch. cbn.
  intros ([u x] & Hin & Hr)%list_elem_of_omap.
  apply list_elem_of_fmap in Hin as (u' & [= -> ->] & Hu').
  exists u'. split; [done|]. cbn in Hr.
  by destruct (cheerio_crawl t o u') as [e|r']; [|injection Hr as ->].
Qed.

(** A successful [firecrawlAdapter.crawl]: the normalised page at depth 0,
    with or without a list of cheerio-fetched subpages moved to depth 1. *)
Lemma firecrawl_crawl_success t u o r :
  firecrawl_crawl env t u o = inr r →
  ∃ data,
    let root := normalizeFirecrawlResultToCrawl data u 0 in
    r = root
    ∨ (0 < maxSubpages_or_0 o
       ∧ ∃ subs, r = set_subpages (Some (bumpDepth <$> subs)) root
                 ∧ Forall (fun c => depth c = Some 0 ∧ subpages c = None) subs).
Proof.
  unfold firecrawl_crawl. destruct (negb _); [done|].
  intros Hr%firecrawlCatch_inr.
  destruct (firecrawlScrape _ _ _) as [e|response]; [done|].
  exists (firecrawlData response). cbn zeta.
  destruct (fc_links (firecrawlData response)) as [links|];
    [|injection Hr as <-; by left].
  destruct (truthy_num (opt_maxSubpages o)); cbn [andb] in Hr;
    [|injection Hr as <-; by left].
  destruct (Z.ltb_spec 0 (maxSubpages_or_0 o));
    [|injection Hr as <-; by left].
  injection Hr as <-. right. split; [done|].
  eexists. split; [done|].
  apply Forall_forall. intros c (u' & _ & Hc)%cheerio_crawlBatch_results.
  by apply (cheerio_crawl_no_budget t (firecrawlSubpageOptions o) u').
Qed.

(** The depths of a successful crawl, adapter by adapter: subpages sit one
    below their parent on every path; the cheerio crawl stays within
    [maxDepth], the Firecrawl path within depth 1, and the Exa path goes as
    deep as the response is nested. *)
Lemma crawlAdapter_tree p u o t r :
  (crawlAdapter env p u o t).1 = inr r →
  TreeAt (match p with
          | cheerio => fun x => x ≤ maxDepth_of o
          | firecrawl => fun x => x ≤ 1
          | exa => fun _ => True
          end) 0 r.
Proof.
  destruct p; cbn [crawlAdapter fst].
  - intros [r0 ->]%exa_crawl_success. apply normalizeExa_tree.
  - intros [data Hr]%firecrawl_crawl_success. cbn zeta in Hr.
    destruct Hr as [->|(_ & subs & -> & Hsubs)].
    + constructor; [done|lia|done].
    + constructor; [done|lia|]. cbn. intros l [= <-].
      apply Forall_fmap. eapply Forall_impl; [exact Hsubs|].
      intros c [Hd Hs]. constructor; cbn; [by rewrite Hd|lia|by rewrite Hs].
  - intros [v' Hrun]%cheerio_crawl_success.
    by eapply crawlRecursive_tree.
Qed.

(** With [maxSubpages] at 0 no adapter returns a root with subpages. *)
Lemma crawlAdapter_no_budget p u o t r :
  (crawlAdapter env p u o t).1 = inr r →
  maxSubpages_or_0 o = 0 →
  subpages r = None.
Proof.
  intros Hr Hmax. destruct p; cbn [crawlAdapter fst] in Hr.
  - apply exa_crawl_success in Hr as [r0 ->].
    rewrite normalizeExa_subpages, Hmax. cbn zeta.
    by destruct (exa_subpages r0).
  - apply firecrawl_crawl_success in Hr as [data Hr]. cbn zeta in Hr.
    destruct Hr as [->|(Hpos & _)]; [done|lia].
  - apply (cheerio_crawl_no_budget t o u r); [lia|done].
Qed.
End CrawlAdapterFacts.

(** A result of the entry point is what some adapter returned for the
    defaulted options. *)
Lemma entry_result_from_adapter {O R : Type} (what : string)
  (base_of : O → ScrapeOptions) (with_defaults : O → O) (env : Env)
  (call : ScrapingProvider → string → O → Z → (JsError + R) * Z)
  u options w r w' :
  entry what base_of with_defaults env call u options w = (inr r, w') →
  ∃ p t, (call p u (with_defaults options) t).1 = inr r.
Proof.
  intros [(_ & e & [=])|(p & st1 & Hrun)]%entry_outcome.
  apply tryWithFallback_outcome in Hrun as (att & _ & Hout).
  cbn [clock] in Hout.
  destruct (call p u (with_defaults options) (clock w)) as [[e|r0] t1] eqn:Hc;
    cbn [fst] in Hout.
  - destruct Hout as [?|(_ & alt & t & r' & _ & Hr & [= ->])]; [done|].
    by exists alt, t.
  - destruct Hout as [[= ->] _]. exists p, (clock w). by rewrite Hc.
Qed.

Section CrawlFacts.
Context `{DomLibs} `{Remote}.
Variable env : Env.

(** Depths in the result of [crawl]: every node has a depth, every entry of
    a [subpages] sequence sits one below its parent, and the tree of a crawl
    served by cheerio stays within [maxDepth]. *)
Lemma crawl_depths u options w r w' :
  crawl env u options w = (inr r, w') →
  ∀ n, n ∈ nodes r →
       ∃ dn, depth n = Some dn
             ∧ (∀ l c, subpages n = Some l → c ∈ l → depth c = Some (dn + 1))
             ∧ (provider r = cheerio → dn ≤ maxDepth_of (crawlDefaults options)).
Proof.
  intros (p & t & Hcall)%entry_result_from_adapter n Hn.
  pose proof (crawlAdapter_tree env p u (crawlDefaults options) t r Hcall) as Htree.
  assert (provider r = p) as Hp.
  { destruct p; cbn [crawlAdapter fst] in Hcall.
    - apply exa_crawl_success in Hcall as [r0 ->]. by destruct r0.
    - apply firecrawl_crawl_success in Hcall as [data Hr]. cbn zeta in Hr.
      by destruct Hr as [->|(_ & subs & -> & _)].
    - apply cheerio_crawl_success in Hcall as [v' Hrun].
      apply crawlRecursive_success
        in Hrun as (_ & _ & ? & result & ? & _ & Hnorm & _ & ->).
      apply cheerioNormal_shape in Hnorm as (_ & _ & Hprov).
      by destruct (bool_decide _). }
  destruct (TreeAt_nodes _ 0 r Htree n Hn) as (dn & Hdn & HP & Hchildren).
  exists dn. split; [done|]. split; [done|].
  intros Hch. rewrite <- Hp, Hch in HP. exact HP.
Qed.
End CrawlFacts.




(** C4 at the failing input: [maxDepth] is 1, Exa answers with a page, a
    subpage and a subpage of that subpage, and the tree [crawl] returns has a
    node at depth 2.  [normalizeExaResultToCrawl] never reads [maxDepth]. *)
Theorem exa_subpage_beyond_maxDepth :
  let o := mkCrawlOptions (mkScrapeOptions (Some exa) None None None None None None)
             (Some 1) (Some 1) None None None in
  maxDepth_of (crawlDefaults o) = 1
  ∧ ∃ r w' n, @crawl sampleDom remoteExaNested envAllKeys "https://a.com/" o world0
              = (inr r, w')
              ∧ provider r = exa
              ∧ n ∈ nodes r
              ∧ depth n = Some 2.
Proof.
  cbn zeta. split; [reflexivity|].
  eexists _, _, _. split; [vm_compute; reflexivity|].
  split; [reflexivity|]. split.
  - cbn. apply list_elem_of_further, list_elem_of_further, list_elem_of_here.
  - reflexivity.
Qed.

(** The same defect on the Firecrawl path: with [maxDepth: 0] the subpages it
    fetches through cheerio are put at depth 1. *)
Lemma firecrawl_subpage_beyond_maxDepth :
  let o := mkCrawlOptions (mkScrapeOptions (Some firecrawl) None None None None None None)
             (Some 1) (Some 0) None None None in
  maxDepth_of (crawlDefaults o) = 0
  ∧ ∃ r w' c, @crawl sampleDom remoteFirecrawlLinks envAllKeys "https://a.com/" o world0
              = (inr r, w')
              ∧ subpages r = Some [c]
              ∧ depth c = Some 1.
Proof.
  cbn zeta. split; [reflexivity|].
  eexists _, _, _. split; [vm_compute; reflexivity|].
  split; reflexivity.
Qed.

(** ** Link extraction *)

Lemma setFrom_elem seen links x :
  x ∈ setFrom seen links ↔ x ∈ links ∧ x ∉ seen.
Proof.
  revert seen. induction links as [|a links IH]; intros seen; cbn.
  { split; [by intros ?%elem_of_nil|by intros [?%elem_of_nil _]]. }
  case_bool_decide as Ha.
  - rewrite IH, elem_of_cons. split; [by intuition|].
    intros [[->|Hx] Hn]; [done|by split].
  - rewrite !elem_of_cons, IH, not_elem_of_cons. split.
    + intros [->|(Hx & Hne & Hn)]; [by split; [left|]|by split; [right|]].
    + intros [[->|Hx] Hn]; [by left|].
      destruct (decide (x = a)) as [->|Hne]; [by left|by right].
Qed.

Lemma setFrom_NoDup seen links : NoDup (setFrom seen links).
Proof.
  revert seen. induction links as [|a links IH]; intros seen; cbn.
  { constructor. }
  case_bool_decide as Ha; [apply IH|].
  constructor; [|apply IH].
  rewrite setFrom_elem, not_elem_of_cons. by intros [_ [? _]].
Qed.

(** First-seen order: of two entries of the result, the earlier one occurs
    in the input before every occurrence of the later one. *)
Lemma setFrom_order seen links (i j : nat) x y :
  setFrom seen links !! i = Some x →
  setFrom seen links !! j = Some y →
  (i < j)%nat →
  ∃ i' : nat, links !! i' = Some x
              ∧ ∀ j' : nat, links !! j' = Some y → (i' < j')%nat.
Proof.
  revert seen i j. induction links as [|a links IH]; intros seen i j; cbn.
  { intros Hi. by rewrite lookup_nil in Hi. }
  case_bool_decide as Ha.
  - intros Hi Hj Hlt.
    destruct (IH seen i j Hi Hj Hlt) as (i' & Hi' & Hall).
    exists (S i'). split; [done|].
    intros [|j'] Hj'; cbn in Hj'.
    + injection Hj' as ->. apply list_elem_of_lookup_2 in Hj.
      apply setFrom_elem in Hj as [_ Hn]. done.
    + specialize (Hall j' Hj'). lia.
  - destruct i as [|i]; destruct j as [|j]; cbn; try lia.
    + intros [= <-] Hj _. exists 0%nat. split; [done|].
      intros [|j'] Hj'; [|lia]. cbn in Hj'. injection Hj' as ->.
      apply list_elem_of_lookup_2 in Hj.
      apply setFrom_elem in Hj as [_ Hn]. by apply not_elem_of_cons in Hn as [? _].
    + intros Hi Hj Hlt.
      destruct (IH (a :: seen) i j Hi Hj) as (i' & Hi' & Hall); [lia|].
      exists (S i'). split; [done|].
      intros [|j'] Hj'; cbn in Hj'.
      * injection Hj' as ->. apply list_elem_of_lookup_2 in Hj.
        apply setFrom_elem in Hj as [_ Hn].
        by apply not_elem_of_cons in Hn as [? _].
      * specialize (Hall j' Hj'). lia.
Qed.

(** What it takes for the link of one anchor to be pushed. *)
Lemma linkOf_Some `{DomLibs} baseUrl baseDomain sameDomainOnly h u :
  linkOf baseUrl baseDomain sameDomainOnly h = Some u ↔
  ∃ hr abs u2,
    h = Some hr
    ∧ hr ≠ EmptyString
    ∧ startsWith hr "#" = false
    ∧ startsWith hr "mailto:" = false
    ∧ parseURL hr (Some baseUrl) = Some abs
    ∧ href abs = u
    ∧ parseURL u None = Some u2
    ∧ (sameDomainOnly = true → hostname u2 = baseDomain)
    ∧ (startsWith u "http://" = true ∨ startsWith u "https://" = true).
Proof.
  unfold linkOf. split.
  - destruct h as [hr|]; [|done].
    destruct (String.eqb_spec hr EmptyString) as [|Hne]; [done|]. cbn [orb].
    destruct (startsWith hr "#") eqn:Hfrag; [done|]. cbn [orb].
    destruct (startsWith hr "mailto:") eqn:Hmail; [done|].
    destruct (parseURL hr (Some baseUrl)) as [abs|] eqn:Habs; [|done].
    destruct (parseURL (href abs) None) as [u2|] eqn:Hu2; [|done].
    destruct (sameDomainOnly && negb (String.eqb (hostname u2) baseDomain))
      eqn:Hdom; [done|].
    destruct (startsWith (href abs) "http://" || startsWith (href abs) "https://")
      eqn:Hhttp; [|done].
    intros [= <-]. exists hr, abs, u2.
    repeat (split; [done|]). split.
    + intros ->. cbn in Hdom. apply negb_false_iff in Hdom.
      by apply String.eqb_eq in Hdom.
    + by apply orb_true_iff in Hhttp.
  - intros (hr & abs & u2 & -> & Hne & Hfrag & Hmail & Habs & <- & Hu2 & Hdom & Hhttp).
    destruct (String.eqb_spec hr EmptyString) as [|_]; [done|].
    rewrite Hfrag, Hmail, Habs, Hu2. cbn [orb].
    assert (sameDomainOnly && negb (String.eqb (hostname u2) baseDomain) = false)
      as ->.
    { destruct sameDomainOnly; [|done]. cbn.
      rewrite (Hdom eq_refl). by rewrite String.eqb_refl. }
    apply orb_true_iff in Hhttp. by rewrite Hhttp.
Qed.

(** C9: for a base URL that parses, [extractLinks] returns a list without
    duplicates that holds exactly the resolved targets of the anchors whose
    [href] is not empty, does not start with [#] or [mailto:], resolves
    against the base URL to a URL that parses, starts with [http://] or
    [https://] and, with [sameDomainOnly], has the host name of the base URL;
    the list is in first-seen order of the anchors. *)
Theorem extractLinks_spec `{DomLibs} (page baseUrl : string)
  (sameDomainOnly : bool) (b : URL) :
  parseURL baseUrl None = Some b →
  ∃ links,
    extractLinks page baseUrl sameDomainOnly = inr links
    ∧ NoDup links
    ∧ (∀ u, u ∈ links ↔
            ∃ hr abs u2,
              Some hr ∈ anchorHrefs page
              ∧ hr ≠ EmptyString
              ∧ startsWith hr "#" = false
              ∧ startsWith hr "mailto:" = false
              ∧ parseURL hr (Some baseUrl) = Some abs
              ∧ href abs = u
              ∧ parseURL u None = Some u2
              ∧ (sameDomainOnly = true → hostname u2 = hostname b)
              ∧ (startsWith u "http://" = true ∨ startsWith u "https://" = true))
    ∧ (∀ (i j : nat) x y,
          links !! i = Some x → links !! j = Some y → (i < j)%nat →
          ∃ i' : nat,
            pushedLinks page baseUrl (hostname b) sameDomainOnly !! i' = Some x
            ∧ ∀ j' : nat,
                pushedLinks page baseUrl (hostname b) sameDomainOnly !! j' = Some y →
                (i' < j')%nat).
Proof.
  intros Hb. unfold extractLinks. rewrite Hb. eexists. split; [done|].
  split; [apply setFrom_NoDup|]. split.
  - intros u. rewrite setFrom_elem. unfold pushedLinks.
    rewrite list_elem_of_omap. split.
    + intros [(h & Hh & Hlink) _].
      apply linkOf_Some in Hlink as (hr & abs & u2 & -> & Hrest).
      by exists hr, abs, u2.
    + intros (hr & abs & u2 & Hh & Hrest). split; [|apply not_elem_of_nil].
      exists (Some hr). split; [done|].
      apply linkOf_Some. by exists hr, abs, u2.
  - intros i j x y. apply setFrom_order.
Qed.

Lemma extractLinks_spec_witness :
  @extractLinks sampleDom
    "/x #top mailto:a@b.c https://b.com/q /x ftp://a.com/f https://a.com/y bad"
    "https://a.com/" true
  = inr ["https://a.com/x"; "https://a.com/y"].
Proof.
  destruct (@extractLinks_spec sampleDom
              "/x #top mailto:a@b.c https://b.com/q /x ftp://a.com/f https://a.com/y bad"
              "https://a.com/" true (mkURL "https://a.com/" "a.com") eq_refl)
    as (links & Hrun & _).
  rewrite Hrun. vm_compute in Hrun. by injection Hrun as <-.
Defined.

(** * Further properties *)

(** ** The tracker over traces *)

Lemma tracker_ext st1 st2 : (∀ p, get p st1 = get p st2) → st1 = st2.
Proof.
  intros Hg. destruct st1 as [a1 b1 c1], st2 as [a2 b2 c2].
  pose proof (Hg exa). pose proof (Hg firecrawl). pose proof (Hg cheerio).
  cbn in *. by subst.
Qed.

Lemma usable_get env now p q st :
  get q (usable env now p st).2
  = if decide (q = p) then stepState env now p (get p st) else get q st.
Proof.
  destruct (decide (q = p)) as [->|Hne]; [|by apply usable_other].
  unfold usable, stepState, isRateLimited.
  destruct (adapter_available env p); [|done]. cbn [andb].
  destruct (isLimited (rateLimit (get p st))) eqn:Hl; cbn; [|done].
  destruct (resetAt (rateLimit (get p st))) as [r|]; [|done].
  destruct (r <=? now); cbn; [|done].
  unfold clearLimit. by rewrite get_set_eq.
Qed.

Lemma usable_fst env now p st :
  (usable env now p st).1
  = adapter_available env p
    && negb (isLimited (rateLimit (get p st))
             && match resetAt (rateLimit (get p st)) with
                | Some r => negb (r <=? now)
                | None => true
                end).
Proof.
  unfold usable, isRateLimited.
  destruct (adapter_available env p); [|done].
  destruct (isLimited _); cbn; [|done].
  destruct (resetAt _) as [r|]; [|done].
  by destruct (r <=? now).
Qed.

Lemma stepState_idem env now p s :
  stepState env now p (stepState env now p s) = stepState env now p s.
Proof.
  unfold stepState.
  destruct (adapter_available env p); [|done]. cbn [andb].
  destruct (isLimited (rateLimit s)) eqn:Hl; [|by rewrite Hl].
  destruct (resetAt (rateLimit s)) as [r|] eqn:Hr; [|by rewrite Hl, Hr].
  destruct (r <=? now) eqn:Hle; [done|by rewrite Hl, Hr, Hle].
Qed.

Lemma stepState_wellFormed env now p s :
  (isLimited (rateLimit s) = true → is_Some (resetAt (rateLimit s))) →
  isLimited (rateLimit (stepState env now p s)) = true →
  is_Some (resetAt (rateLimit (stepState env now p s))).
Proof.
  intros Hwf. unfold stepState. destruct (_ && _); [|exact Hwf].
  destruct (resetAt (rateLimit s)) as [r|] eqn:Hr.
  - destruct (r <=? now); [done|]. rewrite Hr. by eexists.
  - rewrite Hr. exact Hwf.
Qed.

(** The state a pass of the availability filter leaves behind, provider by
    provider. *)
Lemma filter_usable_get env now ps q st :
  get q (filter_usable env now ps st).2
  = if decide (q ∈ ps) then stepState env now q (get q st) else get q st.
Proof.
  revert st. induction ps as [|p ps IH]; intros st; cbn.
  { rewrite decide_False; [done|apply not_elem_of_nil]. }
  pose proof (usable_get env now p q st) as Hq.
  destruct (usable env now p st) as [b st1]. cbn in Hq.
  specialize (IH st1).
  destruct (filter_usable env now ps st1) as [l st2]. cbn in *.
  rewrite IH, Hq.
  destruct (decide (q = p)) as [->|Hne].
  - rewrite (decide_True (P := p ∈ p :: ps)) by apply list_elem_of_here.
    destruct (decide (p ∈ ps)); [apply stepState_idem|done].
  - destruct (decide (q ∈ ps)) as [Hin|Hnin].
    + rewrite decide_True; [done|by apply list_elem_of_further].
    + rewrite decide_False; [done|]. by intros [?|?]%elem_of_cons.
Qed.

(** The answers of a pass are those of independent reads of the state the
    pass started from. *)
Lemma filter_usable_fst env now ps st :
  (filter_usable env now ps st).1
  = List.filter (fun p => (usable env now p st).1) ps.
Proof.
  revert st. induction ps as [|p ps IH]; intros st; cbn; [done|].
  destruct (usable env now p st) as [b st1] eqn:Hu.
  specialize (IH st1).
  destruct (filter_usable env now ps st1) as [l st2]. cbn in *.
  assert (List.filter (fun q => (usable env now q st1).1) ps
          = List.filter (fun q => (usable env now q st).1) ps) as Hext.
  { apply List.filter_ext. intros q.
    pose proof (usable_stable env now q p st) as Hs. by rewrite Hu in Hs. }
  rewrite <- Hext, <- IH. by destruct b.
Qed.

Lemma isRateLimited_get now p st :
  get p (isRateLimited now p st).2 = get p st
  ∨ isLimited (rateLimit (get p (isRateLimited now p st).2)) = false.
Proof.
  unfold isRateLimited.
  destruct (isLimited (rateLimit (get p st))); cbn; [|by left].
  destruct (resetAt (rateLimit (get p st))) as [r|]; [|by left].
  destruct (r <=? now); cbn; [|by left].
  right. unfold clearLimit. by rewrite get_set_eq.
Qed.

Lemma applyOp_wellFormed env st top :
  wellFormed st → wellFormed (applyOp env st top).
Proof.
  intros Hwf q. destruct top as [ti op]. unfold applyOp. cbn [fst snd].
  specialize (Hwf q).
  destruct op as [p|p|p|p|].
  - unfold recordSuccess. destruct (decide (q = p)) as [->|Hne].
    + rewrite get_set_eq. cbn. done.
    + rewrite get_set_ne by done. exact Hwf.
  - unfold recordRateLimit. destruct (decide (q = p)) as [->|Hne].
    + rewrite get_set_eq. cbn. by eexists.
    + rewrite get_set_ne by done. exact Hwf.
  - unfold recordError. destruct (decide (q = p)) as [->|Hne].
    + rewrite get_set_eq. cbn. exact Hwf.
    + rewrite get_set_ne by done. exact Hwf.
  - destruct (decide (q = p)) as [->|Hne].
    + destruct (isRateLimited_get ti p st) as [->|Hfalse]; [exact Hwf|].
      by rewrite Hfalse.
    + rewrite isRateLimited_other by done. exact Hwf.
  - unfold getAvailableProviders, getAvailableProvidersInternal.
    rewrite filter_usable_get. destruct (decide _); [|exact Hwf].
    by apply stepState_wellFormed.
Qed.

Lemma runOps_wellFormed env ops st :
  wellFormed st → wellFormed (runOps env ops st).
Proof.
  revert st. induction ops as [|top ops IH]; intros st Hwf; [done|].
  apply IH. by apply applyOp_wellFormed.
Qed.

Lemma initProviders_wellFormed env : wellFormed (initProviders env createRateLimitState).
Proof. intros p. by destruct p. Qed.

(** X1: whatever successes, rate limits, errors and reads have happened
    since the module was loaded, a limited provider has a reset time, so no
    provider stays limited for ever: from some clock value on, every read
    finds it not limited. *)
Theorem limited_provider_recovers (env : Env) (ops : list (Z * TrackerOp))
  (p : ScrapingProvider) :
  let st := runOps env ops (initProviders env createRateLimitState) in
  wellFormed st
  ∧ ∃ r, ∀ now, r ≤ now → (isRateLimited now p st).1 = false.
Proof.
  intros st.
  assert (wellFormed st) as Hwf.
  { apply runOps_wellFormed, initProviders_wellFormed. }
  split; [exact Hwf|].
  specialize (Hwf p). unfold isRateLimited.
  destruct (isLimited (rateLimit (get p st))); cbn; [|by exists 0].
  destruct (Hwf eq_refl) as [r ->]. exists r. intros now Hle.
  destruct (Z.leb_spec r now); [done|lia].
Qed.

(** X2: two calls of [getAvailableProviders] in immediate succession give
    the same list, and the second one leaves the state as the first one left
    it; the list is the one independent reads of each provider would give. *)
Theorem getAvailableProviders_idempotent (env : Env) (now : Z) (st : TrackerState) :
  let first := getAvailableProviders env now st in
  let second := getAvailableProviders env now first.2 in
  second = first
  ∧ first.1 = List.filter (fun p => (usable env now p st).1) [exa; firecrawl; cheerio].
Proof.
  cbn zeta. unfold getAvailableProviders, getAvailableProvidersInternal.
  split; [|apply filter_usable_fst].
  set (ps := [exa; firecrawl; cheerio]).
  rewrite (surjective_pairing (filter_usable env now ps (filter_usable env now ps st).2)).
  rewrite (surjective_pairing (filter_usable env now ps st)) at 3.
  f_equal.
  - rewrite !filter_usable_fst. apply List.filter_ext. intros p.
    destruct (decide (p ∈ ps)) as [Hin|Hnin].
    + transitivity (usable env now p (usable env now p st).2).1;
        [|apply usable_again].
      apply usable_fst_get.
      rewrite filter_usable_get, usable_get.
      by rewrite !decide_True.
    + apply usable_fst_get. rewrite filter_usable_get. by rewrite decide_False.
  - apply tracker_ext. intros q. rewrite !filter_usable_get.
    destruct (decide (q ∈ ps)); [apply stepState_idem|done].
Qed.

(** ** Selection *)

Lemma includes_filter (f : ScrapingProvider → bool) p :
  includes (List.filter f [exa; firecrawl; cheerio]) p = f p.
Proof.
  unfold includes. cbn.
  destruct p, (f exa) eqn:?, (f firecrawl) eqn:?, (f cheerio) eqn:?; reflexivity.
Qed.

Lemma filter_nil_iff (f : ScrapingProvider → bool) :
  List.filter f [exa; firecrawl; cheerio] = [] ↔ ∀ p, f p = false.
Proof.
  split.
  - intros Hnil p. rewrite <- (includes_filter f p), Hnil. done.
  - intros Hall. cbn. by rewrite !Hall.
Qed.

(** The sort at the end of [selectProvider] never decides anything. *)
Lemma selectByPriority_spec st avail :
  selectByPriority st avail = List.find (includes avail) priorityOrder.
Proof.
  unfold selectByPriority.
  destruct (List.find (includes avail) priorityOrder) as [q|] eqn:Hfind; [done|].
  assert (avail = []) as ->; [|done].
  destruct avail as [|p avail]; [done|]. exfalso.
  assert (includes (p :: avail) p = true) as Hp.
  { apply bool_decide_eq_true, list_elem_of_here. }
  cbn in Hfind.
  destruct (includes (p :: avail) cheerio) eqn:Hc; [done|].
  destruct (includes (p :: avail) exa) eqn:He; [done|].
  destruct (includes (p :: avail) firecrawl) eqn:Hf; [done|].
  destruct p; congruence.
Qed.

(** The choice of [selectProvider] in terms of independent reads. *)
Lemma selectProvider_fst env now prefer fallback html_wanted st :
  (selectProvider env now prefer fallback html_wanted st).1
  = let ok := fun p => (usable env now p st).1 in
    if negb (ok exa) && negb (ok firecrawl) && negb (ok cheerio) then None
    else if html_wanted && negb (bool_decide (is_Some prefer)) && ok firecrawl
    then Some firecrawl
    else match prefer with
         | Some p => if ok p then Some p
                     else if negb fallback then None
                     else List.find ok priorityOrder
         | None => List.find ok priorityOrder
         end.
Proof.
  unfold selectProvider, getAvailableProvidersInternal.
  pose proof (filter_usable_fst env now [exa; firecrawl; cheerio] st) as Hl.
  destruct (filter_usable env now [exa; firecrawl; cheerio] st) as [avail st'].
  cbn [fst snd] in *. subst avail. cbn zeta.
  set (ok := fun p => (usable env now p st).1).
  rewrite !selectByPriority_spec.
  assert (List.find (includes (List.filter ok [exa; firecrawl; cheerio])) priorityOrder
          = List.find ok priorityOrder) as ->.
  { unfold priorityOrder. cbn [List.find]. by rewrite !includes_filter. }
  rewrite !includes_filter.
  assert (bool_decide (List.filter ok [exa; firecrawl; cheerio] = [])
          = negb (ok exa) && negb (ok firecrawl) && negb (ok cheerio)) as ->.
  { cbn. by destruct (ok exa), (ok firecrawl), (ok cheerio). }
  destruct prefer as [p|]; [|done]. by rewrite includes_filter.
Qed.

Lemma selectProvider_ext env now prefer fallback html_wanted st1 st2 :
  (∀ p, (usable env now p st1).1 = (usable env now p st2).1) →
  (selectProvider env now prefer fallback html_wanted st1).1
  = (selectProvider env now prefer fallback html_wanted st2).1.
Proof.
  intros Hu. rewrite !selectProvider_fst. cbn beta zeta.
  unfold priorityOrder. cbn [List.find].
  destruct prefer as [p|]; by rewrite !Hu.
Qed.

(** X3: the [available] flag that [setAvailable] and [initProviders] write
    is never read: neither the list of available providers nor the choice of
    [selectProvider] depends on it (they ask the adapters). *)
Theorem available_flag_never_read (env env' : Env) (now : Z) (st : TrackerState)
  (p : ScrapingProvider) (a : bool)
  (prefer : option ScrapingProvider) (fallback html_wanted : bool) :
  (getAvailableProviders env now (setAvailable p a st)).1
  = (getAvailableProviders env now st).1
  ∧ (selectProvider env now prefer fallback html_wanted (setAvailable p a st)).1
    = (selectProvider env now prefer fallback html_wanted st).1
  ∧ (selectProvider env now prefer fallback html_wanted (initProviders env' st)).1
    = (selectProvider env now prefer fallback html_wanted st).1.
Proof.
  assert (∀ q b st0 r, (usable env now r (setAvailable q b st0)).1
                       = (usable env now r st0).1) as Hset.
  { intros q b st0 r. rewrite !usable_fst. unfold setAvailable.
    destruct (decide (r = q)) as [->|Hne].
    - by rewrite get_set_eq.
    - by rewrite get_set_ne. }
  split; [|split].
  - unfold getAvailableProviders, getAvailableProvidersInternal.
    rewrite !filter_usable_fst. apply List.filter_ext. intros r. apply Hset.
  - apply selectProvider_ext. intros r. apply Hset.
  - apply selectProvider_ext. intros r. unfold initProviders.
    by rewrite !Hset.
Qed.

(** X4: a provider [selectProvider] returns is usable at that instant, and
    it returns none exactly when no provider is usable, or when a preferred
    provider is given, is not usable, and fallback is off. *)
Theorem selectProvider_sound (env : Env) (now : Z)
  (prefer : option ScrapingProvider) (fallback html_wanted : bool)
  (st : TrackerState) :
  let choice := (selectProvider env now prefer fallback html_wanted st).1 in
  (∀ p, choice = Some p → (usable env now p st).1 = true)
  ∧ (choice = None ↔
     (∀ q, (usable env now q st).1 = false)
     ∨ (∃ p, prefer = Some p ∧ (usable env now p st).1 = false ∧ fallback = false)).
Proof.
  cbn zeta. rewrite selectProvider_fst. cbv zeta.
  set (ok := fun p => (usable env now p st).1).
  change (usable env now firecrawl st).1 with (ok firecrawl).
  assert (∀ q, List.find ok priorityOrder = Some q → ok q = true) as Hfind.
  { intros q Hq. by apply List.find_some in Hq as [_ ?]. }
  assert (List.find ok priorityOrder = None → ∀ q, ok q = false) as Hnone.
  { intros Hn q. cbn in Hn.
    destruct (ok cheerio) eqn:?, (ok exa) eqn:?, (ok firecrawl) eqn:?; try done.
    by destruct q. }
  destruct (negb (ok exa) && negb (ok firecrawl) && negb (ok cheerio)) eqn:Hall.
  { split; [done|]. split; [|done]. intros _. left. intros q.
    apply andb_true_iff in Hall as [[He Hf]%andb_true_iff Hc].
    apply negb_true_iff in He, Hf, Hc. by destruct q. }
  assert (¬ ∀ q, ok q = false) as Hsome.
  { intros Hno. by rewrite !Hno in Hall. }
  destruct (html_wanted && negb (bool_decide (is_Some prefer)) && ok firecrawl)
    eqn:Hhtml.
  { apply andb_true_iff in Hhtml as [[_ Hpref]%andb_true_iff Hfc].
    split; [by intros p [= <-]|]. split; [done|].
    intros [?|(p & -> & _)]; [done|].
    apply negb_true_iff, bool_decide_eq_false in Hpref. by destruct Hpref. }
  destruct prefer as [p|].
  - destruct (ok p) eqn:Hp.
    + split; [by intros q [= <-]|]. split; [done|].
      intros [?|(p' & [= <-] & Hp' & _)]; [done|]. unfold ok in Hp. congruence.
    + destruct fallback; cbn [negb].
      * split; [exact Hfind|]. split.
        -- intros Hn. left. by apply Hnone.
        -- by intros [?|(p' & _ & _ & ?)].
      * split; [done|]. split; [|done]. intros _. right. by exists p.
  - split; [exact Hfind|]. split.
    + intros Hn. left. by apply Hnone.
    + by intros [?|(p' & ? & _)].
Qed.

(** X5: routing.  A usable preferred provider is chosen, whatever else is
    asked; with no preference and no HTML wanted the first usable of cheerio,
    Exa, Firecrawl is chosen; with HTML wanted, no preference and Firecrawl
    usable, Firecrawl is chosen. *)
Theorem selectProvider_routing (env : Env) (now : Z) (st : TrackerState)
  (fallback html_wanted : bool) :
  (∀ p, (usable env now p st).1 = true →
        (selectProvider env now (Some p) fallback html_wanted st).1 = Some p)
  ∧ (selectProvider env now None fallback false st).1
    = List.find (fun p => (usable env now p st).1) [cheerio; exa; firecrawl]
  ∧ ((usable env now firecrawl st).1 = true →
     (selectProvider env now None fallback true st).1 = Some firecrawl).
Proof.
  split; [|split].
  - intros p Hp. rewrite selectProvider_fst. cbn beta zeta. rewrite Hp.
    rewrite andb_false_r. cbn [andb].
    destruct (_ && _) eqn:Hall; [|done].
    apply andb_true_iff in Hall as [[He Hf]%andb_true_iff Hc].
    apply negb_true_iff in He, Hf, Hc. destruct p; congruence.
  - rewrite selectProvider_fst. cbn beta zeta. cbn [andb].
    destruct (_ && _) eqn:Hall; [|done].
    apply andb_true_iff in Hall as [[He Hf]%andb_true_iff Hc].
    apply negb_true_iff in He, Hf, Hc. cbn [List.find]. by rewrite He, Hf, Hc.
  - intros Hfc. rewrite selectProvider_fst. cbn beta zeta. rewrite Hfc.
    by rewrite andb_false_r.
Qed.

(** X6: what [selectProvider] chooses depends on the limited flag and the
    reset time of each provider only: error counts and [lastSuccess], which
    the sort at its end compares, never change the choice. *)
Theorem selection_ignores_error_counts (env : Env) (now : Z)
  (prefer : option ScrapingProvider) (fallback html_wanted : bool)
  (st1 st2 : TrackerState) :
  (∀ p, isLimited (rateLimit (get p st1)) = isLimited (rateLimit (get p st2))
        ∧ resetAt (rateLimit (get p st1)) = resetAt (rateLimit (get p st2))) →
  (selectProvider env now prefer fallback html_wanted st1).1
  = (selectProvider env now prefer fallback html_wanted st2).1.
Proof.
  intros Hsame. apply selectProvider_ext.
  intros p. rewrite !usable_fst. by destruct (Hsame p) as [-> ->].
Qed.

Lemma selection_ignores_error_counts_witness :
  let st1 := recordSuccess 5 exa createRateLimitState in
  let st2 := recordError cheerio (recordError cheerio createRateLimitState) in
  (selectProvider envAllKeys 10 None true false st1).1
  = (selectProvider envAllKeys 10 None true false st2).1.
Proof.
  intros st1 st2.
  apply (selection_ignores_error_counts envAllKeys 10 None true false st1 st2).
  intros p. by destruct p.
Defined.

(** ** The orchestrator, continued *)

Section OrchestratorMore.
Context {O R : Type}.
Variable what : string.
Variable base_of : O -> ScrapeOptions.
Variable with_defaults : O -> O.
Variable env : Env.
Variable call : ScrapingProvider -> string -> O -> Z -> (JsError + R) * Z.

Lemma tryAlternatives_calls alts u o w :
  ∃ attempted,
    calls (tryAlternatives env call alts u o w).2 = calls w ++ attempted
    ∧ attempted `sublist_of` alts.
Proof.
  revert w. induction alts as [|alt rest IH]; intros w; cbn.
  { exists []. by rewrite app_nil_r. }
  destruct (usable env (clock w) alt (tracker w)) as [ok st1].
  destruct ok.
  - unfold invoke. cbn.
    destruct (call alt u o (clock w)) as [[fallbackError|r] t2].
    + match goal with |- context [tryAlternatives env call rest u o ?w0] =>
        destruct (IH w0) as (att & Hcalls & Hsub) end.
      exists (alt :: att). rewrite Hcalls. cbn. rewrite <- app_assoc.
      split; [done|]. by apply sublist_skip.
    + cbn. exists [alt]. split; [done|].
      apply sublist_skip, sublist_nil_l.
  - destruct (IH (with_tracker st1 w)) as (att & Hcalls & Hsub).
    exists att. split; [done|]. by apply sublist_cons.
Qed.

Lemma tryAlternatives_other p alts u o w :
  p ∉ alts →
  get p (tracker (tryAlternatives env call alts u o w).2) = get p (tracker w).
Proof.
  revert w. induction alts as [|alt rest IH]; intros w Hp; cbn; [done|].
  apply not_elem_of_cons in Hp as [Hne Hp].
  pose proof (usable_other env (clock w) alt p (tracker w) Hne) as Hu.
  destruct (usable env (clock w) alt (tracker w)) as [ok st1]. cbn in Hu.
  destruct ok.
  - unfold invoke. cbn.
    destruct (call alt u o (clock w)) as [[fallbackError|r] t2].
    + rewrite IH by done. cbn.
      destruct (isRateLimit fallbackError).
      * unfold recordRateLimit. by rewrite get_set_ne.
      * unfold recordError. by rewrite get_set_ne.
    + cbn. unfold recordSuccess. by rewrite get_set_ne.
  - by rewrite IH.
Qed.

Lemma tryAlternatives_success alts u o w r w' :
  tryAlternatives env call alts u o w = (Some r, w') →
  ∃ alt t st0,
    alt ∈ alts
    ∧ call alt u o t = (inr r, clock w')
    ∧ last (calls w') = Some alt
    ∧ tracker w' = recordSuccess (clock w') alt st0.
Proof.
  revert w. induction alts as [|alt rest IH]; intros w; cbn; [done|].
  destruct (usable env (clock w) alt (tracker w)) as [ok st1].
  destruct ok.
  - unfold invoke. cbn.
    destruct (call alt u o (clock w)) as [[fallbackError|r0] t2] eqn:Hc.
    + intros (a & t & st0 & Ha & Hrest)%IH.
      exists a, t, st0. split; [by apply list_elem_of_further|done].
    + intros [= <- <-]. cbn. exists alt, (clock w), st1.
      split; [apply list_elem_of_here|]. split; [done|].
      split; [apply last_snoc|done].
  - intros (a & t & st0 & Ha & Hrest)%IH.
    exists a, t, st0. split; [by apply list_elem_of_further|done].
Qed.

(** The run of [tryWithFallback] from the adapters invoked to the state
    left behind. *)
Lemma tryWithFallback_calls u o p w :
  ∃ attempted,
    calls (tryWithFallback base_of env call u o p w).2 = calls w ++ p :: attempted
    ∧ attempted `sublist_of` alternatives p
    ∧ (not_false (opt_fallback (base_of o)) = false → attempted = []).
Proof.
  assert (∀ l : list ScrapingProvider,
            ∃ attempted, l ++ [p] = l ++ p :: attempted
                         ∧ attempted `sublist_of` alternatives p
                         ∧ (not_false (opt_fallback (base_of o)) = false →
                            attempted = [])) as Hnone.
  { intros l. exists []. split; [done|]. split; [apply sublist_nil_l|done]. }
  unfold tryWithFallback, invoke.
  destruct (call p u o (clock w)) as [[e|r] t1]; [|apply Hnone].
  destruct (isRateLimit e); [|apply Hnone].
  destruct (not_false _); [|apply Hnone].
  match goal with |- context [tryAlternatives env call ?alts u o ?w0] =>
    destruct (tryAlternatives_calls alts u o w0) as (att & Hcalls & Hsub);
    destruct (tryAlternatives env call alts u o w0) as [[r|] w3] end;
  cbn in *; exists att; rewrite Hcalls, <- app_assoc; done.
Qed.

Lemma tryWithFallback_success u o p w r w' :
  tryWithFallback base_of env call u o p w = (inr r, w') →
  ∃ q t st0,
    call q u o t = (inr r, clock w')
    ∧ last (calls w') = Some q
    ∧ tracker w' = recordSuccess (clock w') q st0.
Proof.
  unfold tryWithFallback, invoke.
  destruct (call p u o (clock w)) as [[e|r0] t1] eqn:Hc.
  - destruct (isRateLimit e); [|done].
    destruct (not_false _); [|done].
    destruct (tryAlternatives _ _ _ _ _ _) as [[r1|] w3] eqn:Hrun; [|done].
    intros [= <- <-].
    apply tryAlternatives_success in Hrun as (a & t & st0 & _ & Hrest).
    by exists a, t, st0.
  - intros [= <- <-]. cbn. exists p, (clock w), (tracker w).
    split; [done|]. split; [apply last_snoc|done].
Qed.

(** The entry point either throws before any adapter call or is a run of
    [tryWithFallback] on the provider it selected. *)
Lemma entry_cases u options w :
  let opts := with_defaults options in
  let b := base_of opts in
  let sel := selectProvider env (clock w) (opt_provider b)
               (not_false (opt_fallback b)) (truthy_bool (opt_html b)) (tracker w) in
  let w1 := with_tracker sel.2 w in
  let run := entry what base_of with_defaults env call u options w in
  (sel.1 = None ∧ opt_fallback b = Some false
   ∧ run = (inl (providerUnavailableError (opt_provider b)), w1))
  ∨ (∃ p, run = tryWithFallback base_of env call u opts p w1
          ∧ (sel.1 = Some p
             ∨ (sel.1 = None ∧ not_false (opt_fallback b) = true))).
Proof.
  cbn zeta. unfold entry.
  destruct (selectProvider _ _ _ _ _ _) as [sel st1]. cbn [fst snd].
  destruct sel as [p|]; [right; by eauto|].
  cbn [adapter_available negb andb]. rewrite andb_false_r.
  destruct (opt_fallback (base_of (with_defaults options))) as [[|]|] eqn:Hf;
    cbn [not_false].
  - right. eexists. split; [done|]. by right.
  - left. done.
  - right. eexists. split; [done|]. by right.
Qed.
End OrchestratorMore.

(** ** Runs of the entry points *)

Lemma selectProvider_preferred_only env now q html_wanted st p :
  (selectProvider env now (Some q) false html_wanted st).1 = Some p → p = q.
Proof.
  rewrite selectProvider_fst. cbn beta zeta.
  destruct (_ && _ && _); [done|].
  assert (bool_decide (is_Some (Some q)) = true) as ->
    by (apply bool_decide_eq_true; eauto).
  cbn [negb]. rewrite andb_false_r. cbn [andb].
  destruct (usable env now q st).1; [congruence|done].
Qed.

Lemma alternatives_NoDup p : NoDup (p :: alternatives p).
Proof.
  destruct p; cbn; repeat (apply NoDup_cons; split);
    rewrite ?elem_of_cons, ?elem_of_nil; try apply NoDup_nil_2;
    intuition congruence.
Qed.

(** X7: when an entry point returns a result, the result is the answer of the
    adapter that was invoked last, and the tracker holds for that provider a
    last success at the time of the answer, no rate limit and an error count
    of zero. *)
Theorem success_is_recorded {O R : Type} (what : string)
  (base_of : O → ScrapeOptions) (with_defaults : O → O) (env : Env)
  (call : ScrapingProvider → string → O → Z → (JsError + R) * Z)
  (u : string) (options : O) (w w' : World) (r : R) :
  entry what base_of with_defaults env call u options w = (inr r, w') →
  ∃ q t,
    last (calls w') = Some q
    ∧ call q u (with_defaults options) t = (inr r, clock w')
    ∧ lastSuccess (get q (tracker w')) = Some (clock w')
    ∧ isLimited (rateLimit (get q (tracker w'))) = false
    ∧ errors (rateLimit (get q (tracker w'))) = 0%nat.
Proof.
  intros Hrun.
  destruct (entry_cases what base_of with_defaults env call u options w)
    as [(_ & _ & Hthrow)|(p & Htry & _)]; cbn zeta in *.
  { rewrite Hrun in Hthrow. done. }
  rewrite Hrun in Htry. symmetry in Htry.
  apply tryWithFallback_success in Htry as (q & t & st0 & Hcall & Hlast & Hst).
  exists q, t. rewrite Hst. unfold recordSuccess. rewrite get_set_eq. done.
Qed.

Lemma success_is_recorded_witness :
  ∃ r w',
    @scrape sampleDom remoteSmallSite envNoKeys "https://a.com/y"
      noScrapeOptions world0 = (inr r, w')
    ∧ ∃ q t,
        last (calls w') = Some q
        ∧ @scrapeAdapter sampleDom remoteSmallSite envNoKeys q "https://a.com/y"
            (scrapeDefaults noScrapeOptions) t = (inr r, clock w')
        ∧ lastSuccess (get q (tracker w')) = Some (clock w')
        ∧ isLimited (rateLimit (get q (tracker w'))) = false
        ∧ errors (rateLimit (get q (tracker w'))) = 0%nat.
Proof.
  destruct (@scrape sampleDom remoteSmallSite envNoKeys "https://a.com/y"
              noScrapeOptions world0) as [[e|r] w'] eqn:Hrun.
  { vm_compute in Hrun. discriminate. }
  exists r, w'. split; [reflexivity|].
  exact (success_is_recorded "scraping" id scrapeDefaults envNoKeys
           (@scrapeAdapter sampleDom remoteSmallSite envNoKeys)
           "https://a.com/y" noScrapeOptions world0 w' r Hrun).
Defined.

(** X8: with [fallback: false] at most one adapter is invoked in a run of an
    entry point, and when a provider was asked for, it is that provider's. *)
Theorem fallback_off_single_call {O R : Type} (what : string)
  (base_of : O → ScrapeOptions) (with_defaults : O → O) (env : Env)
  (call : ScrapingProvider → string → O → Z → (JsError + R) * Z)
  (u : string) (options : O) (w : World) :
  opt_fallback (base_of (with_defaults options)) = Some false →
  let w' := (entry what base_of with_defaults env call u options w).2 in
  calls w' = calls w
  ∨ ∃ p, calls w' = calls w ++ [p]
         ∧ ∀ q, opt_provider (base_of (with_defaults options)) = Some q → q = p.
Proof.
  intros Hf. cbn zeta.
  destruct (entry_cases what base_of with_defaults env call u options w)
    as [(_ & _ & ->)|(p & -> & Hsel)]; cbn zeta in *; [by left|].
  right. exists p.
  rewrite Hf in Hsel. cbn [not_false] in Hsel.
  destruct Hsel as [Hsel|[_ ?]]; [|done].
  destruct (tryWithFallback_calls base_of env call u (with_defaults options) p
              (with_tracker
                 (selectProvider env (clock w)
                    (opt_provider (base_of (with_defaults options))) false
                    (truthy_bool (opt_html (base_of (with_defaults options))))
                    (tracker w)).2 w))
    as (att & Hcalls & _ & Hnil).
  rewrite Hf in Hnil. rewrite (Hnil eq_refl) in Hcalls.
  rewrite Hf. cbn [not_false]. split; [exact Hcalls|].
  intros q Hq. rewrite Hq in Hsel.
  symmetry. by eapply selectProvider_preferred_only.
Qed.

Lemma fallback_off_single_call_witness :
  let w' := (@scrape sampleDom remoteAllDown envAllKeys "https://example.com"
               (mkScrapeOptions (Some exa) (Some false) None None None None None)
               world0).2 in
  calls w' = calls world0
  ∨ ∃ p, calls w' = calls world0 ++ [p]
         ∧ ∀ q, Some exa = Some q → q = p.
Proof.
  exact (fallback_off_single_call "scraping" id scrapeDefaults envAllKeys
           (@scrapeAdapter sampleDom remoteAllDown envAllKeys)
           "https://example.com"
           (mkScrapeOptions (Some exa) (Some false) None None None None None)
           world0 eq_refl).
Defined.

(** X9: a run of an entry point invokes no adapter twice: the adapters it
    invokes are the selected provider followed by some of that provider's
    alternatives, in the order of the alternatives. *)
Theorem no_adapter_invoked_twice {O R : Type} (what : string)
  (base_of : O → ScrapeOptions) (with_defaults : O → O) (env : Env)
  (call : ScrapingProvider → string → O → Z → (JsError + R) * Z)
  (u : string) (options : O) (w : World) :
  ∃ added,
    calls (entry what base_of with_defaults env call u options w).2
    = calls w ++ added
    ∧ NoDup added
    ∧ match added with
      | [] => True
      | p :: rest => rest `sublist_of` alternatives p
      end.
Proof.
  destruct (entry_cases what base_of with_defaults env call u options w)
    as [(_ & _ & ->)|(p & -> & _)]; cbn zeta in *.
  { exists []. rewrite app_nil_r. split; [done|]. split; [apply NoDup_nil_2|done]. }
  match goal with |- context [tryWithFallback base_of env call u ?o p ?w0] =>
    destruct (tryWithFallback_calls base_of env call u o p w0)
      as (att & Hcalls & Hsub & _) end.
  exists (p :: att). split; [exact Hcalls|]. split; [|done].
  eapply sublist_NoDup; [apply (alternatives_NoDup p)|].
  by apply sublist_skip.
Qed.

(** X10: when the adapter tried first fails with a rate-limit error, the run
    leaves that provider marked as limited, with a reset time one cooldown
    after the failure and one more error counted, whatever the alternatives
    do; until that reset time the provider is not usable. *)
Theorem rate_limited_provider_cools_down {O R : Type}
  (base_of : O → ScrapeOptions) (env : Env)
  (call : ScrapingProvider → string → O → Z → (JsError + R) * Z)
  (u : string) (o : O) (p : ScrapingProvider) (w : World) (e : JsError) (t1 : Z) :
  call p u o (clock w) = (inl e, t1) →
  isRateLimit e = true →
  let st' := tracker (tryWithFallback base_of env call u o p w).2 in
  rateLimit (get p st')
  = mkRateLimitState true (Some (t1 + RATE_LIMIT_COOLDOWN_MS))
      (S (errors (rateLimit (get p (tracker w)))))
  ∧ ∀ now, now < t1 + RATE_LIMIT_COOLDOWN_MS → (usable env now p st').1 = false.
Proof.
  intros Hcall Hrl. cbn zeta.
  assert (rateLimit (get p (tracker (tryWithFallback base_of env call u o p w).2))
          = mkRateLimitState true (Some (t1 + RATE_LIMIT_COOLDOWN_MS))
              (S (errors (rateLimit (get p (tracker w)))))) as Hst.
  { unfold tryWithFallback, invoke. rewrite Hcall, Hrl. cbn.
    assert (get p (recordRateLimit t1 p (tracker w))
            = mkProviderState (available (get p (tracker w)))
                (mkRateLimitState true (Some (t1 + RATE_LIMIT_COOLDOWN_MS))
                   (S (errors (rateLimit (get p (tracker w))))))
                (lastSuccess (get p (tracker w)))) as Hrec
      by (unfold recordRateLimit; by rewrite get_set_eq).
    destruct (not_false _); cbn; [|by rewrite Hrec].
    match goal with |- context [tryAlternatives env call ?alts u o ?w0] =>
      pose proof (tryAlternatives_other env call p alts u o w0) as Hother;
      destruct (tryAlternatives env call alts u o w0) as [[r|] w3] end;
    cbn in *; rewrite Hother, Hrec; try done;
    destruct p; cbn; rewrite ?elem_of_cons, ?elem_of_nil; intuition congruence. }
  split; [exact Hst|].
  intros now Hnow. rewrite usable_fst, Hst. cbn.
  assert ((t1 + RATE_LIMIT_COOLDOWN_MS <=? now) = false) as -> by lia.
  cbn. apply andb_false_r.
Qed.

Lemma rate_limited_provider_cools_down_witness :
  let call := @scrapeAdapter sampleDom remoteAllDown envAllKeys in
  let st' := tracker (tryWithFallback id envAllKeys call "https://example.com"
                        noScrapeOptions exa world0).2 in
  rateLimit (get exa st') = mkRateLimitState true (Some 61001) 1
  ∧ ∀ now, now < 61001 → (usable envAllKeys now exa st').1 = false.
Proof.
  intros call.
  exact (rate_limited_provider_cools_down id envAllKeys call
           "https://example.com" noScrapeOptions exa world0
           (mkJsError "Exa rate limit: 429 Too Many Requests" true false) 1001
           eq_refl eq_refl).
Defined.

(** X11: an entry point that returns without having invoked any adapter has
    thrown the error that the asked-for provider is not available and fallback
    is disabled, and fallback was indeed disabled; the error that no provider
    is available is never what stops it. *)
Theorem no_call_means_unavailable_error {O R : Type} (what : string)
  (base_of : O → ScrapeOptions) (with_defaults : O → O) (env : Env)
  (call : ScrapingProvider → string → O → Z → (JsError + R) * Z)
  (u : string) (options : O) (w : World) :
  let b := base_of (with_defaults options) in
  let run := entry what base_of with_defaults env call u options w in
  calls run.2 = calls w →
  run.1 = inl (providerUnavailableError (opt_provider b))
  ∧ opt_fallback b = Some false.
Proof.
  cbn zeta. intros Hcalls.
  destruct (entry_cases what base_of with_defaults env call u options w)
    as [(_ & Hf & Hthrow)|(p & Htry & _)]; cbn zeta in *.
  { by rewrite Hthrow. }
  rewrite Htry in Hcalls.
  match type of Hcalls with context [tryWithFallback base_of env call u ?o p ?w0] =>
    destruct (tryWithFallback_calls base_of env call u o p w0)
      as (att & Hc & _) end.
  rewrite Hc in Hcalls. cbn in Hcalls.
  apply (f_equal length) in Hcalls. rewrite length_app in Hcalls. cbn in Hcalls. lia.
Qed.

Lemma no_call_means_unavailable_error_witness :
  let run := @scrape sampleDom remoteAllDown envNoKeys "https://example.com"
               (mkScrapeOptions (Some exa) (Some false) None None None None None)
               world0 in
  run.1 = inl (providerUnavailableError (Some exa))
  ∧ Some false = Some false.
Proof.
  exact (no_call_means_unavailable_error "scraping" id scrapeDefaults envNoKeys
           (@scrapeAdapter sampleDom remoteAllDown envNoKeys)
           "https://example.com"
           (mkScrapeOptions (Some exa) (Some false) None None None None None)
           world0 eq_refl).
Defined.

(** X12: when no provider is asked for, HTML is not wanted and the cheerio
    provider is usable, the first adapter an entry point invokes is cheerio's,
    also when API keys for Exa and Firecrawl are set. *)
Theorem default_route_is_cheerio {O R : Type} (what : string)
  (base_of : O → ScrapeOptions) (with_defaults : O → O) (env : Env)
  (call : ScrapingProvider → string → O → Z → (JsError + R) * Z)
  (u : string) (options : O) (w : World) :
  opt_provider (base_of (with_defaults options)) = None →
  truthy_bool (opt_html (base_of (with_defaults options))) = false →
  (usable env (clock w) cheerio (tracker w)).1 = true →
  ∃ rest,
    calls (entry what base_of with_defaults env call u options w).2
    = calls w ++ cheerio :: rest.
Proof.
  intros Hp Hh Hok.
  assert ((selectProvider env (clock w)
             (opt_provider (base_of (with_defaults options)))
             (not_false (opt_fallback (base_of (with_defaults options))))
             (truthy_bool (opt_html (base_of (with_defaults options))))
             (tracker w)).1 = Some cheerio) as Hsel.
  { rewrite Hp, Hh, selectProvider_fst. cbn beta zeta. rewrite Hok.
    cbn [negb andb]. rewrite andb_false_r. unfold priorityOrder. cbn [List.find].
    by rewrite Hok. }
  destruct (entry_cases what base_of with_defaults env call u options w)
    as [(Hnone & _)|(p & -> & Hcase)]; cbn zeta in *.
  { congruence. }
  assert (p = cheerio) as -> by (destruct Hcase as [?|[? _]]; congruence).
  match goal with |- context [tryWithFallback base_of env call u ?o cheerio ?w0] =>
    destruct (tryWithFallback_calls base_of env call u o cheerio w0)
      as (att & Hc & _) end.
  by exists att.
Qed.

Lemma default_route_is_cheerio_witness :
  ∃ rest,
    calls (@crawl sampleDom remoteSmallSite envAllKeys "https://a.com/"
             noCrawlOptions world0).2
    = calls world0 ++ cheerio :: rest.
Proof.
  exact (default_route_is_cheerio "crawling" opt_base crawlDefaults envAllKeys
           (@crawlAdapter sampleDom remoteSmallSite envAllKeys)
           "https://a.com/" noCrawlOptions world0 eq_refl eq_refl eq_refl).
Defined.

(** ** Error classification *)

Lemma append_cons (x : Ascii.ascii) (a b : string) :
  String x a +:+ b = String x (a +:+ b).
Proof. reflexivity. Qed.

Lemma append_nil_l (b : string) : EmptyString +:+ b = b.
Proof. reflexivity. Qed.

Lemma append_assoc_str (a b c : string) : (a +:+ b) +:+ c = a +:+ (b +:+ c).
Proof.
  induction a as [|x a IH]; rewrite ?append_nil_l, ?append_cons; [done|].
  by f_equal.
Qed.

Lemma lower_app (a b : string) : lower (a +:+ b) = lower a +:+ lower b.
Proof.
  induction a as [|x a IH]; rewrite ?append_nil_l, ?append_cons; [done|].
  simpl. rewrite append_cons. by f_equal.
Qed.

Lemma substring_prefix_app (s post : string) :
  String.substring 0 (String.length s) (s +:+ post) = s.
Proof.
  induction s as [|x s IH]; rewrite ?append_nil_l, ?append_cons; simpl.
  - by destruct post.
  - by f_equal.
Qed.

Lemma substring_occurrence (pre s post : string) :
  String.substring (String.length pre) (String.length s) (pre +:+ s +:+ post) = s.
Proof.
  induction pre as [|x pre IH]; rewrite ?append_nil_l, ?append_cons; simpl;
    [apply substring_prefix_app|exact IH].
Qed.

Lemma substring_eq_prefix (s t : string) :
  String.substring 0 (String.length s) t = s → ∃ post, t = s +:+ post.
Proof.
  revert t. induction s as [|x s IH]; intros t; simpl.
  - intros _. by exists t.
  - destruct t as [|y t]; [done|]. intros [= -> Hrest].
    destruct (IH t Hrest) as (post & ->). exists post. by rewrite append_cons.
Qed.

Lemma substring_eq_occursIn (m : nat) (s t : string) :
  String.substring m (String.length s) t = s → occursIn s t.
Proof.
  revert t. induction m as [|m IH]; intros t Hsub.
  - apply substring_eq_prefix in Hsub as (post & ->). by exists EmptyString, post.
  - destruct t as [|y t].
    + simpl in Hsub. subst s. by exists EmptyString, EmptyString.
    + simpl in Hsub. destruct (IH t Hsub) as (pre & post & ->).
      by exists (String y pre), post.
Qed.

(** [s.includes(sub)] is the occurrence of [sub] in [s]. *)
Lemma str_includes_occursIn (s sub : string) :
  sub ≠ EmptyString → str_includes s sub = true ↔ occursIn sub s.
Proof.
  intros Hne. unfold str_includes. rewrite bool_decide_eq_true. split.
  - intros [m Hm]. apply String.index_correct1 in Hm.
    by eapply substring_eq_occursIn.
  - intros (pre & post & ->).
    destruct (String.index 0 sub (pre +:+ sub +:+ post)) as [m|] eqn:Hidx; [by eauto|].
    exfalso.
    apply (String.index_correct3 0 (String.length pre) sub _ Hidx Hne); [lia|].
    apply substring_occurrence.
Qed.

Lemma occursIn_app_r (s a b : string) : occursIn s b → occursIn s (a +:+ b).
Proof.
  intros (pre & post & ->). exists (a +:+ pre), post.
  by rewrite append_assoc_str.
Qed.

Lemma occursIn_inner (a s b t : string) :
  occursIn (a +:+ s +:+ b) t → occursIn s t.
Proof.
  intros (pre & post & ->). exists (pre +:+ a), (b +:+ post).
  by rewrite !append_assoc_str.
Qed.

Lemma test_any_ci_spec (alts : list string) (msg : string) :
  Forall (fun a => a ≠ EmptyString) alts →
  test_any_ci alts msg = true ↔ ∃ a, a ∈ alts ∧ occursIn a (lower msg).
Proof.
  intros Hne. unfold test_any_ci. rewrite existsb_exists. split.
  - intros (a & Ha%list_elem_of_In & Hinc). exists a. split; [done|].
    apply str_includes_occursIn; [|done].
    by eapply (proj1 (Forall_forall _ _) Hne).
  - intros (a & Ha & Hocc). exists a. split; [by apply list_elem_of_In|].
    apply str_includes_occursIn; [|done].
    by eapply (proj1 (Forall_forall _ _) Hne).
Qed.

Lemma isExaRateLimitError_spec (e : JsError) :
  isExaRateLimitError e = true ↔
  occursIn "429" (lower (message e))
  ∨ occursIn "quota" (lower (message e))
  ∨ occursIn "limit" (lower (message e)).
Proof.
  unfold isExaRateLimitError. rewrite test_any_ci_spec
    by (repeat (apply Forall_cons; split; [done|]); apply Forall_nil_2).
  split.
  - intros (a & Ha & Hocc).
    rewrite !elem_of_cons, elem_of_nil in Ha.
    destruct Ha as [->|[->|[->|[->|[]]]]]; [|by left|by right; left|by right; right].
    right; right. by apply (occursIn_inner "rate " "limit" EmptyString).
  - intros [Hocc|[Hocc|Hocc]]; eexists; (split; [|exact Hocc]);
      rewrite !elem_of_cons; intuition.
Qed.

(** X13: the rate-limit tests of the Exa and the Firecrawl adapter are the
    same test: an error counts as a rate limit exactly when its message, put
    in lower case, contains [429], [quota] or [limit]. *)
Theorem rate_limit_tests_agree (e : JsError) :
  isFirecrawlRateLimitError e = isExaRateLimitError e
  ∧ (isExaRateLimitError e = true ↔
     occursIn "429" (lower (message e))
     ∨ occursIn "quota" (lower (message e))
     ∨ occursIn "limit" (lower (message e))).
Proof.
  split; [|apply isExaRateLimitError_spec].
  apply eq_true_iff_eq. rewrite isExaRateLimitError_spec.
  unfold isFirecrawlRateLimitError. rewrite test_any_ci_spec
    by (repeat (apply Forall_cons; split; [done|]); apply Forall_nil_2).
  split.
  - intros (a & Ha & Hocc).
    rewrite !elem_of_cons, elem_of_nil in Ha.
    destruct Ha as [->|[->|[->|[->|[->|[]]]]]];
      [|by left|by right; left|by right; right|].
    + right; right. by apply (occursIn_inner "rate " "limit" EmptyString).
    + right; right. by apply (occursIn_inner "rate" "limit" "error").
  - intros [Hocc|[Hocc|Hocc]]; eexists; (split; [|exact Hocc]);
      rewrite !elem_of_cons; intuition.
Qed.

(** X14: when Exa answers without a result for a URL that contains [limit],
    [429] or [quota] (in any case), the Exa adapter of scraper.ts throws its
    no-results error as a rate-limit error: the URL is part of the message the
    rate-limit test looks at. *)
Theorem exa_no_results_rate_limit_by_url `{Remote} (env : Env) (t : Z)
  (u : string) (options : ScrapeOptions) (response : ExaResponse) :
  createExaClient env = true →
  getContents t [u] (buildExaOptions options) = inr response →
  exa_results response = None ∨ exa_results response = Some [] →
  occursIn "429" (lower u) ∨ occursIn "quota" (lower u) ∨ occursIn "limit" (lower u) →
  exa_scrape env t u options
  = inl (mkJsError ("Exa rate limit: No results from Exa for: " +:+ u) true false).
Proof.
  intros Hclient Hget Hres Hocc.
  unfold exa_scrape. rewrite Hclient, Hget. cbn [negb].
  assert (isExaRateLimitError (plainError ("No results from Exa for: " +:+ u)) = true)
    as Hrl.
  { apply isExaRateLimitError_spec. cbn [message plainError].
    rewrite lower_app.
    destruct Hocc as [?|[?|?]]; [left|right; left|right; right];
      by apply occursIn_app_r. }
  destruct Hres as [->| ->]; unfold exaCatch; by rewrite Hrl.
Qed.

Lemma exa_no_results_rate_limit_by_url_witness :
  @exa_scrape remoteExaEmpty envAllKeys 1000
    "https://example.com/limits" noScrapeOptions
  = inl (mkJsError
           "Exa rate limit: No results from Exa for: https://example.com/limits"
           true false).
Proof.
  apply (@exa_no_results_rate_limit_by_url remoteExaEmpty envAllKeys
           1000 "https://example.com/limits" noScrapeOptions (mkExaResponse (Some []))).
  - reflexivity.
  - reflexivity.
  - by right.
  - right; right. by exists "https://example.com/", "s".
Defined.

(** X15: an HTTP error status of the fetched site, 429 included, is a plain
    error for the cheerio adapter: [tryWithFallback] re-raises it, invokes no
    other adapter and counts one error for cheerio without marking it as
    limited. *)
Theorem cheerio_http_error_no_fallback `{DomLibs} `{Remote} (env : Env)
  (u : string) (o : ScrapeOptions) (w : World) (response : HttpResponse) :
  is_Some (parseURL u None) →
  fetch (clock w) u = inr response →
  resp_ok response = false →
  let run := tryWithFallback id env (scrapeAdapter env) u o cheerio w in
  run.1 = inl (plainError ("HTTP error! status: " +:+ resp_status response
                           +:+ " for " +:+ u))
  ∧ calls run.2 = calls w ++ [cheerio]
  ∧ tracker run.2 = recordError cheerio (tracker w).
Proof.
  intros [x Hurl] Hfetch Hok. cbn zeta.
  erewrite tryWithFallback_plain_error; [done| |done].
  unfold scrapeAdapter, cheerio_scrape. rewrite Hurl, Hfetch, Hok. cbn.
  reflexivity.
Qed.

Lemma cheerio_http_error_no_fallback_witness :
  let run := tryWithFallback id envAllKeys
               (@scrapeAdapter sampleDom remoteHttp429 envAllKeys)
               "https://a.com/" noScrapeOptions cheerio world0 in
  run.1 = inl (plainError "HTTP error! status: 429 for https://a.com/")
  ∧ calls run.2 = calls world0 ++ [cheerio]
  ∧ tracker run.2 = recordError cheerio (tracker world0).
Proof.
  apply (@cheerio_http_error_no_fallback sampleDom remoteHttp429 envAllKeys
           "https://a.com/" noScrapeOptions world0 (mkHttpResponse false "429" "slow down")).
  - by eexists.
  - reflexivity.
  - reflexivity.
Defined.

(** ** Batches *)

Lemma batchLoop_spec {A} (one : string → JsError + A) (urls : list string) :
  (batchLoop one urls).1 = omap (fun u => successOf (one u)) urls
  ∧ Forall2 (fun u s =>
       cs_id s = u
       ∧ cs_success s = bool_decide (is_Some (successOf (one u)))
       ∧ cs_error s = match one u with
                      | inr _ => None
                      | inl e => Some ("CRAWL_ERROR", statusCodeOf (message e))
                      end)
      urls (batchLoop one urls).2.
Proof.
  induction urls as [|u rest [IHr IHs]]; cbn; [by split|].
  destruct (batchLoop one rest) as [rs ss]. cbn in IHr, IHs.
  destruct (one u) as [e|r] eqn:Hone; cbn; (split; [by rewrite ?IHr|]);
    (apply Forall2_cons; split; [|exact IHs]); cbn; by rewrite Hone.
Qed.

(** X16: the batch methods of the cheerio adapter and, given a client, of the
    Firecrawl adapter in scraper.ts never throw; they give one status per URL,
    in the order of the URLs, that tells whether the single scrape of that URL
    succeeded, and their results are the results of the scrapes that
    succeeded, in that order. *)
Theorem scrapeBatch_statuses `{DomLibs} `{Remote} `{ExaStatuses} (env : Env)
  (p : ScrapingProvider) (urls : list string) (options : ScrapeOptions) (t : Z) :
  p = cheerio ∨ (p = firecrawl ∧ createFirecrawlClient env = true) →
  let one u := (scrapeAdapter env p u options t).1 in
  ∃ ss,
    (scrapeBatchAdapter env p urls options t).1
    = inr (mkScrapeBatchResult (omap (fun u => successOf (one u)) urls) (Some ss))
    ∧ Forall2 (fun u s =>
         cs_id s = u
         ∧ cs_success s = bool_decide (is_Some (successOf (one u)))
         ∧ cs_error s = match one u with
                        | inr _ => None
                        | inl e => Some ("CRAWL_ERROR", statusCodeOf (message e))
                        end)
        urls ss.
Proof.
  intros [->|[-> Hclient]]; cbn [scrapeBatchAdapter scrapeAdapter fst].
  - unfold cheerio_scrapeBatch.
    destruct (batchLoop_spec (fun u => cheerio_scrape t u options) urls) as [Hr Hs].
    destruct (batchLoop _ urls) as [rs ss]. cbn in Hr, Hs.
    exists ss. by rewrite Hr.
  - unfold firecrawl_scrapeBatch. rewrite Hclient. cbn [negb].
    destruct (batchLoop_spec (fun u => firecrawl_scrape env t u options) urls)
      as [Hr Hs].
    destruct (batchLoop _ urls) as [rs ss]. cbn in Hr, Hs.
    exists ss. by rewrite Hr.
Qed.

Lemma scrapeBatch_statuses_witness :
  let one u := (@scrapeAdapter sampleDom remoteSmallSite envNoKeys cheerio u
                  noScrapeOptions 1000).1 in
  ∃ ss,
    (@scrapeBatchAdapter sampleDom remoteSmallSite noExaStatuses envNoKeys cheerio
       ["https://a.com/y"; "https://nowhere.com/"] noScrapeOptions 1000).1
    = inr (mkScrapeBatchResult
             (omap (fun u => successOf (one u))
                ["https://a.com/y"; "https://nowhere.com/"]) (Some ss))
    ∧ Forall2 (fun u s =>
         cs_id s = u
         ∧ cs_success s = bool_decide (is_Some (successOf (one u)))
         ∧ cs_error s = match one u with
                        | inr _ => None
                        | inl e => Some ("CRAWL_ERROR", statusCodeOf (message e))
                        end)
        ["https://a.com/y"; "https://nowhere.com/"] ss.
Proof.
  apply (@scrapeBatch_statuses sampleDom remoteSmallSite noExaStatuses envNoKeys
           cheerio ["https://a.com/y"; "https://nowhere.com/"] noScrapeOptions 1000).
  by left.
Defined.

Section BatchOrchestratorFacts.
Context {O RB : Type}.
Variable what : string.
Variable base_of : O -> ScrapeOptions.
Variable with_defaults : O -> O.
Variable env : Env.
Variable callBatch : ScrapingProvider -> list string -> O -> Z -> (JsError + RB) * Z.

(** A batch whose selected adapter returns is returned as it is, after one
    adapter call, with the success recorded. *)
Lemma entryBatch_selected_success urls options w p b t' :
  let opts := with_defaults options in
  let sel := selectProvider env (clock w) (opt_provider (base_of opts))
               (not_false (opt_fallback (base_of opts)))
               (truthy_bool (opt_html (base_of opts))) (tracker w) in
  sel.1 = Some p →
  callBatch p urls opts (clock w) = (inr b, t') →
  entryBatch what base_of with_defaults env callBatch urls options w
  = (inr b, mkWorld (recordSuccess t' p sel.2) t' (calls w ++ [p])).
Proof.
  cbn zeta. intros Hsel Hcall. unfold entryBatch.
  destruct (selectProvider _ _ _ _ _ _) as [sel st1]. cbn in Hsel. subst sel.
  unfold invokeBatch. cbn. by rewrite Hcall.
Qed.
End BatchOrchestratorFacts.

(** The batch methods of cheerio and, given a client, of Firecrawl return. *)
Lemma scrapeBatchAdapter_returns `{DomLibs} `{Remote} `{ExaStatuses} (env : Env)
  (p : ScrapingProvider) (urls : list string) (options : ScrapeOptions) (t : Z) :
  p = cheerio ∨ (p = firecrawl ∧ createFirecrawlClient env = true) →
  ∃ b, (scrapeBatchAdapter env p urls options t).1 = inr b.
Proof.
  intros [->|[-> Hclient]]; cbn [scrapeBatchAdapter fst].
  - unfold cheerio_scrapeBatch. destruct (batchLoop _ urls) as [rs ss]. by eauto.
  - unfold firecrawl_scrapeBatch. rewrite Hclient. cbn [negb].
    destruct (batchLoop _ urls) as [rs ss]. by eauto.
Qed.

(** X17: when [scrapeBatch] selects cheerio, or Firecrawl with a client, it
    returns a batch result whatever happens to the single URLs, rate-limit
    errors included: it invokes that adapter only, tries no alternate, and
    records a success for the provider. *)
Theorem scrapeBatch_never_falls_back `{DomLibs} `{Remote} `{ExaStatuses}
  (env : Env) (urls : list string) (options : ScrapeOptions) (w : World)
  (p : ScrapingProvider) :
  let opts := scrapeDefaults options in
  (selectProvider env (clock w) (opt_provider opts) (not_false (opt_fallback opts))
     (truthy_bool (opt_html opts)) (tracker w)).1 = Some p →
  p = cheerio ∨ (p = firecrawl ∧ createFirecrawlClient env = true) →
  let run := scrapeBatch env urls options w in
  (∃ b, run.1 = inr b)
  ∧ calls run.2 = calls w ++ [p]
  ∧ lastSuccess (get p (tracker run.2)) = Some (clock run.2)
  ∧ isLimited (rateLimit (get p (tracker run.2))) = false.
Proof.
  cbn zeta. intros Hsel Hp.
  destruct (scrapeBatchAdapter_returns env p urls (scrapeDefaults options)
              (clock w) Hp) as (b & Hb).
  unfold scrapeBatch.
  erewrite (entryBatch_selected_success "scraping" id scrapeDefaults env
              (scrapeBatchAdapter env) urls options w p); [|exact Hsel|].
  2:{ apply injective_projections; [exact Hb|reflexivity]. }
  cbn. unfold recordSuccess. rewrite get_set_eq. cbn. by eauto.
Qed.

Lemma scrapeBatch_never_falls_back_witness :
  let run := @scrapeBatch sampleDom remoteAllDown noExaStatuses envNoKeys
               ["https://example.com"; "https://b.com/"] noScrapeOptions world0 in
  (∃ b, run.1 = inr b)
  ∧ calls run.2 = calls world0 ++ [cheerio]
  ∧ lastSuccess (get cheerio (tracker run.2)) = Some (clock run.2)
  ∧ isLimited (rateLimit (get cheerio (tracker run.2))) = false.
Proof.
  apply (@scrapeBatch_never_falls_back sampleDom remoteAllDown noExaStatuses
           envNoKeys ["https://example.com"; "https://b.com/"] noScrapeOptions
           world0 cheerio).
  - reflexivity.
  - by left.
Defined.

(** X18: the [httpStatusCode] of a batch status is read off the error message,
    which holds the URL: a URL that contains [404] and is answered with an HTTP
    error status is reported with the status code 404 by the cheerio batch
    scrape, whatever status the site answered with. *)
Theorem batch_status_code_from_url `{DomLibs} `{Remote} (t : Z) (u : string)
  (options : ScrapeOptions) (response : HttpResponse) :
  is_Some (parseURL u None) →
  fetch t u = inr response →
  resp_ok response = false →
  occursIn "404" u →
  cheerio_scrapeBatch t [u] options
  = inr (mkScrapeBatchResult []
           (Some [mkCrawlStatus u false (Some ("CRAWL_ERROR", Some 404))])).
Proof.
  intros [x Hurl] Hfetch Hok Hocc.
  unfold cheerio_scrapeBatch, batchLoop, cheerio_scrape.
  rewrite Hurl, Hfetch, Hok. cbn.
  unfold statusCodeOf.
  assert (str_includes
            ("HTTP error! status: " +:+ resp_status response +:+ " for " +:+ u)
            "404" = true) as ->; [|done].
  apply str_includes_occursIn; [done|].
  rewrite <- !append_assoc_str. by apply occursIn_app_r.
Qed.

Lemma batch_status_code_from_url_witness :
  @cheerio_scrapeBatch sampleDom remoteHttp500 1000 ["https://a.com/404"]
    noScrapeOptions
  = inr (mkScrapeBatchResult []
           (Some [mkCrawlStatus "https://a.com/404" false
                    (Some ("CRAWL_ERROR", Some 404))])).
Proof.
  apply (@batch_status_code_from_url sampleDom remoteHttp500 1000
           "https://a.com/404" noScrapeOptions (mkHttpResponse false "500" "oops")).
  - by eexists.
  - reflexivity.
  - reflexivity.
  - by exists "https://a.com/", EmptyString.
Defined.

(** ** The cheerio crawl, continued *)






Section CheerioCrawlMore.
Context `{DomLibs} `{Remote}.
Variable t : Z.
Variable options : CrawlOptions.


End CheerioCrawlMore.



(** ** The subpage budget *)

Section BudgetFacts.
Context `{DomLibs} `{Remote}.
Variable env : Env.





End BudgetFacts.



(** ** Where the cheerio crawl goes *)

Section CheerioCrawlReach.
Context `{DomLibs} `{Remote}.
Variable t : Z.
Variable options : CrawlOptions.

Lemma crawlRecursive_parses fuel currentUrl d visitedUrls r visited' :
  crawlRecursive t options fuel currentUrl d visitedUrls = Some (inr r, visited') →
  is_Some (parseURL currentUrl None).
Proof.
  destruct fuel as [|fuel]; [done|]. cbn [crawlRecursive].
  destruct (_ || _); [done|].
  by destruct (parseURL currentUrl None); [eauto|].
Qed.


End CheerioCrawlReach.



(** X22: the depth limit of the cheerio crawl at its edges: with a negative
    [maxDepth] every crawl fails before anything is fetched, with the message
    that the URL was already visited or the depth limit reached; with
    [maxDepth] at 0 a crawl that succeeds returns the root page alone. *)
Theorem cheerio_crawl_maxDepth_edges `{DomLibs} `{Remote} (t : Z)
  (options : CrawlOptions) (u : string) :
  (maxDepth_of options < 0 →
   cheerio_crawl t options u
   = inl (plainError ("URL already visited or max depth reached: " +:+ u)))
  ∧ (maxDepth_of options = 0 →
     ∀ r, cheerio_crawl t options u = inr r →
          nodes r = [r] ∧ depth r = Some 0).
Proof.
  split.
  - intros Hneg. unfold cheerio_crawl, crawlFuel. cbn [crawlRecursive].
    destruct (Z.ltb_spec (maxDepth_of options) 0); [|lia].
    by rewrite orb_true_r.
  - intros Hzero r [v' Hrun]%cheerio_crawl_success.
    unfold crawlFuel in Hrun.
    apply crawlRecursive_success
      in Hrun as (_ & _ & response & result & outcomes & _ & Hnorm & Hmap & ->).
    apply cheerioNormal_shape in Hnorm as (Hdepth & Hsubs & _).
    unfold expansion. destruct (Z.ltb_spec 0 (maxDepth_of options)); [lia|].
    cbn [andb]. rewrite bool_decide_eq_true_2 by done.
    by rewrite nodes_unfold, Hsubs.
Qed.



(** ** The tools *)

(** X24: a [maxAge] of 0 given to the scrape tool never reaches Firecrawl as
    such: the tool replaces it by the configured default, so the request asks
    Firecrawl not to store the page in its cache only when the configured
    default is 0 and the caller gave no [maxAge] or 0. *)
Theorem tool_maxAge_zero_is_dropped (cfg : ScrapeToolConfig)
  (input : ScrapeOptions) :
  let request := buildFirecrawlOptions (scrapeToolOptions cfg input) in
  (opt_maxAge input = Some 0 → fo_maxAge request = defaultMaxAge cfg)
  ∧ (fo_storeInCache request = Some false ↔
     defaultMaxAge cfg = Some 0
     ∧ (opt_maxAge input = None ∨ opt_maxAge input = Some 0)).
Proof.
  cbn zeta. unfold buildFirecrawlOptions, scrapeToolOptions.
  cbn [opt_maxAge fo_maxAge fo_storeInCache]. unfold or_num.
  destruct (opt_maxAge input) as [n|].
  - destruct (Z.eqb_spec n 0) as [->|Hn].
    + split; [done|]. case_bool_decide; split; try done; intuition.
    + split; [by intros [= ?]|].
      rewrite bool_decide_eq_false_2 by (by intros [= ?]).
      split; [done|]. by intros [_ [?|[= ?]]].
  - split; [done|]. case_bool_decide; split; try done; intuition.
Qed.

(** X25: a [maxSubpages] of 0 given to the crawl tool is kept, whatever
    default the tool was configured with: a result of the tool then has no
    subpages. *)
Theorem tool_maxSubpages_zero_is_kept `{DomLibs} `{Remote} (env : Env)
  (cfg : CrawlToolConfig) (u : string) (input : CrawlOptions) (w w' : World)
  (r : CrawlResult) :
  opt_maxSubpages input = Some 0 →
  crawlToolExecute env cfg u input w = (inr r, w') →
  subpages r = None.
Proof.
  intros Hzero Hrun. unfold crawlToolExecute in Hrun.
  apply entry_result_from_adapter in Hrun as (p & t & Hr).
  eapply crawlAdapter_no_budget; [exact Hr|].
  unfold maxSubpages_or_0, crawlToolOptions, id. cbn. by rewrite Hzero.
Qed.

Lemma tool_maxSubpages_zero_is_kept_witness :
  let cfg := mkCrawlToolConfig
               (mkScrapeToolConfig None None None None None None None)
               (Some 5) (Some 2) None None None in
  let input := mkCrawlOptions noScrapeOptions (Some 0) None None None None in
  ∃ r w',
    @crawlToolExecute sampleDom remoteSmallSite envNoKeys cfg "https://a.com/"
      input world0 = (inr r, w')
    ∧ subpages r = None.
Proof.
  intros cfg input.
  destruct (@crawlToolExecute sampleDom remoteSmallSite envNoKeys cfg
              "https://a.com/" input world0) as [[e|r] w'] eqn:Hrun;
    [by vm_compute in Hrun|].
  exists r, w'. split; [done|].
  exact (@tool_maxSubpages_zero_is_kept sampleDom remoteSmallSite envNoKeys cfg
           "https://a.com/" input world0 w' r eq_refl Hrun).
Defined.

(** ** Fallback that succeeds *)

(** X26: when the adapter tried first fails with a rate-limit error, fallback
    is on, and the first alternate is usable and answers, [tryWithFallback]
    returns the alternate's answer after exactly these two adapter calls; the
    first provider is left limited and the alternate has its success
    recorded. *)
Theorem fallback_serves_first_alternate {O R : Type}
  (base_of : O → ScrapeOptions) (env : Env)
  (call : ScrapingProvider → string → O → Z → (JsError + R) * Z)
  (u : string) (o : O) (p alt : ScrapingProvider) (w : World) (e : JsError)
  (t1 t2 : Z) (r : R) :
  call p u o (clock w) = (inl e, t1) →
  isRateLimit e = true →
  opt_fallback (base_of o) ≠ Some false →
  head (alternatives p) = Some alt →
  (usable env t1 alt (recordRateLimit t1 p (tracker w))).1 = true →
  call alt u o t1 = (inr r, t2) →
  let run := tryWithFallback base_of env call u o p w in
  run.1 = inr r
  ∧ calls run.2 = calls w ++ [p; alt]
  ∧ clock run.2 = t2
  ∧ isLimited (rateLimit (get p (tracker run.2))) = true
  ∧ lastSuccess (get alt (tracker run.2)) = Some t2.
Proof.
  intros Hcall Hrl Hfb Halt Husable Hcall2. cbn zeta.
  assert (alt ≠ p) as Hne by (destruct p; injection Halt as <-; done).
  unfold tryWithFallback, invoke. rewrite Hcall, Hrl. cbn.
  assert (not_false (opt_fallback (base_of o)) = true) as ->
    by (by destruct (opt_fallback (base_of o)) as [[|]|]).
  destruct (alternatives p) as [|a rest]; [done|]. injection Halt as ->.
  cbn [tryAlternatives clock tracker with_tracker].
  pose proof (usable_other env t1 alt p (recordRateLimit t1 p (tracker w))
                (not_eq_sym Hne)) as Hother.
  destruct (usable env t1 alt (recordRateLimit t1 p (tracker w))) as [ok st1].
  cbn in Husable, Hother. subst ok.
  unfold invoke. cbn. rewrite Hcall2. cbn.
  split; [done|]. split; [by rewrite <- app_assoc|]. split; [done|].
  unfold recordSuccess. rewrite get_set_eq, get_set_ne by done. cbn.
  rewrite Hother. unfold recordRateLimit. by rewrite get_set_eq.
Qed.

Lemma fallback_serves_first_alternate_witness :
  let call := @scrapeAdapter sampleDom remoteExaLimited envAllKeys in
  let run := tryWithFallback id envAllKeys call "https://example.com"
               noScrapeOptions exa world0 in
  (∃ r, run.1 = inr r ∧ provider r = firecrawl)
  ∧ calls run.2 = [exa; firecrawl]
  ∧ isLimited (rateLimit (get exa (tracker run.2))) = true
  ∧ lastSuccess (get firecrawl (tracker run.2)) = Some 1002.
Proof.
  intros call.
  destruct (fallback_serves_first_alternate id envAllKeys call
              "https://example.com" noScrapeOptions exa firecrawl world0
              (mkJsError "Exa rate limit: 429 Too Many Requests" true false)
              1001 1002
              (normalizeFirecrawlResult
                 (mkFirecrawlResult (Some "0123456789") None None None)
                 "https://example.com")
              eq_refl eq_refl)
    as (Hres & Hcalls & _ & Hlim & Hlast);
    [done|reflexivity|reflexivity|reflexivity|].
  split; [eexists; split; [exact Hres|reflexivity]|].
  split; [exact Hcalls|]. split; [exact Hlim|exact Hlast].
Defined.

(** ** Provenance of the pages of a Firecrawl crawl *)

Lemma cheerio_crawl_provider `{DomLibs} `{Remote} t o u r :
  cheerio_crawl t o u = inr r → provider r = cheerio.
Proof.
  intros [v' Hrun]%cheerio_crawl_success. unfold crawlFuel in Hrun.
  apply crawlRecursive_success
    in Hrun as (_ & _ & response & result & outcomes & _ & Hnorm & _ & ->).
  apply cheerioNormal_shape in Hnorm as (_ & _ & Hp).
  by destruct (bool_decide _).
Qed.

(** X27: in the result of a Firecrawl crawl the root page comes from
    Firecrawl and sits at depth 0, and every subpage was fetched by the
    cheerio adapter: it carries the provider cheerio, sits at depth 1 and has
    no subpages of its own. *)
Theorem firecrawl_crawl_subpages_are_cheerio `{DomLibs} `{Remote} (env : Env)
  (t : Z) (u : string) (options : CrawlOptions) (r : CrawlResult) :
  firecrawl_crawl env t u options = inr r →
  provider r = firecrawl
  ∧ depth r = Some 0
  ∧ ∀ l, subpages r = Some l →
         Forall (fun c => provider c = cheerio ∧ depth c = Some 1
                          ∧ subpages c = None) l.
Proof.
  unfold firecrawl_crawl. destruct (negb _); [done|].
  intros Hr%firecrawlCatch_inr.
  destruct (firecrawlScrape _ _ _) as [e|response]; [done|].
  destruct (fc_links (firecrawlData response)) as [links|];
    [|by injection Hr as <-].
  destruct (truthy_num (opt_maxSubpages options)); cbn [andb] in Hr;
    [|by injection Hr as <-].
  destruct (Z.ltb_spec 0 (maxSubpages_or_0 options)); [|by injection Hr as <-].
  injection Hr as <-. split; [done|]. split; [done|].
  cbn [subpages set_subpages]. intros l [= <-].
  apply Forall_fmap, Forall_forall. intros c Hc.
  apply cheerio_crawlBatch_results in Hc as (u' & _ & Hc).
  pose proof (cheerio_crawl_provider _ _ _ _ Hc) as Hp.
  apply (cheerio_crawl_no_budget t (firecrawlSubpageOptions options) u') in Hc
    as [Hd Hs]; [|cbn; lia].
  cbn. by rewrite Hd.
Qed.

Lemma firecrawl_crawl_subpages_are_cheerio_witness :
  let o := mkCrawlOptions noScrapeOptions (Some 3) None None None None in
  ∃ r, @firecrawl_crawl sampleDom remoteFirecrawlLinks envAllKeys 1000
         "https://a.com/" o = inr r
       ∧ provider r = firecrawl
       ∧ depth r = Some 0
       ∧ ∀ l, subpages r = Some l →
              Forall (fun c => provider c = cheerio ∧ depth c = Some 1
                               ∧ subpages c = None) l.
Proof.
  intros o.
  destruct (@firecrawl_crawl sampleDom remoteFirecrawlLinks envAllKeys 1000
              "https://a.com/" o) as [e|r] eqn:Hrun; [by vm_compute in Hrun|].
  exists r. split; [done|].
  exact (@firecrawl_crawl_subpages_are_cheerio sampleDom remoteFirecrawlLinks
           envAllKeys 1000 "https://a.com/" o r Hrun).
Defined.

(** ** Batches of crawls *)


(** ** When every provider is limited *)


